(** * Entropy acquisition on Windows: [crypto/rand/rand_win.c]

    A shallow embedding of [rand_pool_acquire_entropy],
    [rand_pool_add_nonce_data] and [rand_pool_add_additional_data], and the
    properties the design document states about them.

    The translation unit calls into two collaborators it does not define:
    the pool functions declared in [rand_local.h] / [crypto/rand.h], and the
    Win32 API.  Both are interfaces here (type classes), every call to them is
    recorded in a trace, and the control flow of [rand_win.c] is embedded over
    these interfaces exactly as it is written. *)

From Stdlib Require Import ZArith Lia Bool.
From Stdlib.Strings Require Import Byte.
From stdpp Require Import base numbers list strings.

Local Open Scope Z_scope.

(** ** Machine integers and constants *)

(** The file builds for 32-bit and for 64-bit Windows; [size_t] and
    pointers have the width of the target. *)
Inductive arch : Type := Win32 | Win64.

Definition pointer_bits (a : arch) : Z :=
  match a with Win32 => 32 | Win64 => 64 end.

(** Conversion to [size_t] / to a pointer: reduction modulo [2^pointer_bits]. *)
Definition size_t_wrap (a : arch) (z : Z) : Z := z mod 2 ^ pointer_bits a.

(** [8 * bytes] as the compiler evaluates it, in [size_t]. *)
Definition size_t_mul (a : arch) (x y : Z) : Z := size_t_wrap a (x * y).

(** Conversion to [ULONG] / [DWORD] (32 bits on both targets): the length
    arguments of [BCryptGenRandom] and [CryptGenRandom]. *)
Definition to_ULONG (z : Z) : Z := z mod 2 ^ 32.

Definition NULL : Z := 0.

(** [#define PFN_BCryptGenRandom_NOTSET ((PFN_BCryptGenRandom)-1)] *)
Definition PFN_BCryptGenRandom_NOTSET (a : arch) : Z := size_t_wrap a (-1).

(** [#define STATUS_SUCCESS ((NTSTATUS)0x00000000L)] *)
Definition STATUS_SUCCESS : Z := 0.
(** [#define LOAD_LIBRARY_SEARCH_SYSTEM32 0x00000800] *)
Definition LOAD_LIBRARY_SEARCH_SYSTEM32 : Z := 0x800.
(** [#define PROV_INTEL_SEC 22] *)
Definition PROV_INTEL_SEC : Z := 22.
(** [#define INTEL_DEF_PROV L"Intel Hardware Cryptographic Service Provider"] *)
Definition INTEL_DEF_PROV : string := "Intel Hardware Cryptographic Service Provider".
(** From [wincrypt.h] and [bcrypt.h]. *)
Definition PROV_RSA_FULL : Z := 1.
Definition CRYPT_VERIFYCONTEXT : Z := 0xF0000000.
Definition CRYPT_SILENT : Z := 0x40.
Definition BCRYPT_USE_SYSTEM_PREFERRED_RNG : Z := 0x2.

(** The preprocessor configuration the function body depends on. *)
Record build : Type := Build {
  target : arch;
  OPENSSL_RAND_SEED_RDTSC : bool;
  OPENSSL_RAND_SEED_RDCPU : bool;
  USE_BCRYPTGENRANDOM : bool
}.

(** ** Bytes and records in memory *)

Definition byte_of_Z (z : Z) : byte :=
  match Byte.of_N (Z.to_N (z mod 256)) with
  | Some b => b
  | None => x00
  end.

(** Little-endian representation of [v] on [n] bytes. *)
Fixpoint le_bytes (n : nat) (v : Z) : list byte :=
  match n with
  | O => []
  | S n' => byte_of_Z v :: le_bytes n' (Z.shiftr v 8)
  end.

(** [memset(p, c, n)] on the memory [mem] that starts at [p]. *)
Definition memset (mem : list byte) (c : Z) (n : nat) : list byte :=
  replicate n (byte_of_Z c) ++ drop n mem.

(** A store of [bs] at byte offset [off] of [mem]. *)
Definition store (mem : list byte) (off : nat) (bs : list byte) : list byte :=
  take off mem ++ bs ++ drop (off + length bs) mem.

(** ** The collaborators *)

(** The functions of the random subsystem that [rand_win.c] calls
    ([rand_local.h], [crypto/rand.h]).  They all receive the [RAND_POOL *]
    and may change the pool, so each returns the pool after the call.
    [rand_pool_buffer_write] stands for a callee writing through the pointer
    that [rand_pool_add_begin] handed out: that memory belongs to the pool. *)
Class RandLocal (RAND_POOL : Type) : Type := {
  rand_pool_bytes_needed : RAND_POOL -> Z -> Z * RAND_POOL;
  rand_pool_add_begin : RAND_POOL -> Z -> Z * RAND_POOL;
  rand_pool_buffer_write : RAND_POOL -> Z -> list byte -> RAND_POOL;
  rand_pool_add_end : RAND_POOL -> Z -> Z -> Z * RAND_POOL;
  rand_pool_add : RAND_POOL -> list byte -> Z -> Z -> Z * RAND_POOL;
  rand_pool_entropy_available : RAND_POOL -> Z * RAND_POOL;
  rand_acquire_entropy_from_tsc : RAND_POOL -> Z * RAND_POOL;
  rand_acquire_entropy_from_cpu : RAND_POOL -> Z * RAND_POOL
}.

(** The Win32 calls, as functions of the state [OS] of the operating system
    as this process sees it.  A call that fills a buffer returns the bytes it
    wrote; [call_BCryptGenRandom pfn] is the indirect call through the
    function pointer [pfn]. *)
Class Windows (OS : Type) : Type := {
  LoadLibraryExA : string -> Z -> Z -> OS -> Z * OS;
  GetProcAddress : Z -> string -> OS -> Z * OS;
  FreeLibrary : Z -> OS -> Z * OS;
  call_BCryptGenRandom : Z -> Z -> Z -> Z -> OS -> (Z * list byte) * OS;
  CryptAcquireContextW : option string -> option string -> Z -> Z -> OS -> (Z * Z) * OS;
  CryptGenRandom : Z -> Z -> OS -> (Z * list byte) * OS;
  CryptReleaseContext : Z -> Z -> OS -> Z * OS;
  GetCurrentProcessId : OS -> Z * OS;
  GetCurrentThreadId : OS -> Z * OS;
  GetSystemTimeAsFileTime : OS -> (Z * Z) * OS;
  QueryPerformanceCounter : OS -> (Z * Z) * OS
}.

(** Every call that leaves the translation unit, with its arguments and
    what it returned. *)
Inductive event : Type :=
| Ev_from_tsc (ret : Z)
| Ev_from_cpu (ret : Z)
| Ev_LoadLibraryExA (name : string) (flags : Z) (ret : Z)
| Ev_GetProcAddress (hm : Z) (name : string) (ret : Z)
| Ev_FreeLibrary (hm : Z)
| Ev_BCryptGenRandom (pfn : Z) (cb : Z) (flags : Z) (status : Z)
| Ev_CryptAcquireContextW (provider : option string) (provtype flags : Z) (ret hProv : Z)
| Ev_CryptGenRandom (hProv : Z) (len : Z) (ret : Z)
| Ev_CryptReleaseContext (hProv : Z)
| Ev_bytes_needed (factor : Z) (ret : Z)
| Ev_add_begin (len : Z) (buffer : Z)
| Ev_add_end (len : Z) (entropy : Z)
| Ev_entropy_available (ret : Z)
| Ev_add (data : list byte) (len : Z) (entropy : Z) (ret : Z)
| Ev_GetCurrentProcessId (ret : Z)
| Ev_GetCurrentThreadId (ret : Z)
| Ev_GetSystemTimeAsFileTime (low high : Z)
| Ev_QueryPerformanceCounter (ret quad : Z).

(** ** Programs *)

(** What a call of one of the functions works on: the caller's pool, the
    operating system, and the function-local [static] of
    [rand_pool_acquire_entropy]. *)
Record state (RAND_POOL OS : Type) : Type := State {
  pool : RAND_POOL;
  os : OS;
  s_pfnBCryptGenRandom : Z
}.
Arguments State {RAND_POOL OS} _ _ _.
Arguments pool {RAND_POOL OS} _.
Arguments os {RAND_POOL OS} _.
Arguments s_pfnBCryptGenRandom {RAND_POOL OS} _.

(** A statement either falls through with a value or executes [return v]. *)
Inductive flow (A : Type) : Type :=
| Next (a : A)
| Returned (v : Z).
Arguments Next {A} a.
Arguments Returned {A} v.

Section Programs.
Context {RAND_POOL OS : Type} `{RandLocal RAND_POOL} `{Windows OS}.

Definition M (A : Type) : Type :=
  state RAND_POOL OS -> flow A * state RAND_POOL OS * list event.

Definition ret {A} (a : A) : M A := fun s => (Next a, s, []).

Definition return_ {A} (v : Z) : M A := fun s => (Returned v, s, []).

Definition bind {A B} (m : M A) (k : A -> M B) : M B :=
  fun s =>
    match m s with
    | (Next a, s1, t1) =>
        match k a s1 with
        | (r, s2, t2) => (r, s2, t1 ++ t2)
        end
    | (Returned v, s1, t1) => (Returned v, s1, t1)
    end.

(** A call on the pool: run it, keep the new pool, log it. *)
Definition on_pool {A} (f : RAND_POOL -> A * RAND_POOL) (ev : A -> event) : M A :=
  fun s =>
    match f (pool s) with
    | (a, p) => (Next a, State p (os s) (s_pfnBCryptGenRandom s), [ev a])
    end.

(** A call into Windows. *)
Definition on_os {A} (f : OS -> A * OS) (ev : A -> event) : M A :=
  fun s =>
    match f (os s) with
    | (a, o) => (Next a, State (pool s) o (s_pfnBCryptGenRandom s), [ev a])
    end.

(** The value a C function call yields: what [return] gave, or the
    value the body fell through with. *)
Definition call (m : M Z) (s : state RAND_POOL OS) : Z * state RAND_POOL OS * list event :=
  match m s with
  | (Next v, s1, t) => (v, s1, t)
  | (Returned v, s1, t) => (v, s1, t)
  end.
End Programs.

Declare Scope prog_scope.
Delimit Scope prog_scope with prog.
Notation "'let*' x := m 'in' k" := (bind m (fun x => k))
  (at level 10, x name, m at level 100, k at level 200) : prog_scope.
Notation "'do' m 'then' k" := (bind m (fun _ => k))
  (at level 10, m at level 100, k at level 200) : prog_scope.

(** ** [rand_win.c] *)

Section Source.
Context {RAND_POOL OS : Type} `{RandLocal RAND_POOL} `{Windows OS}.
Local Open Scope prog_scope.

Abbreviation prog := (@M RAND_POOL OS).

(** *** The calls, logged *)

Definition do_from_tsc : prog Z :=
  on_pool rand_acquire_entropy_from_tsc Ev_from_tsc.
Definition do_from_cpu : prog Z :=
  on_pool rand_acquire_entropy_from_cpu Ev_from_cpu.
Definition do_bytes_needed (entropy_factor : Z) : prog Z :=
  on_pool (fun p => rand_pool_bytes_needed p entropy_factor)
          (Ev_bytes_needed entropy_factor).
Definition do_add_begin (len : Z) : prog Z :=
  on_pool (fun p => rand_pool_add_begin p len) (Ev_add_begin len).
Definition do_add_end (len entropy : Z) : prog Z :=
  on_pool (fun p => rand_pool_add_end p len entropy) (fun _ => Ev_add_end len entropy).
Definition do_entropy_available : prog Z :=
  on_pool rand_pool_entropy_available Ev_entropy_available.
(** [rand_pool_add(pool, buffer, len, entropy)]: the pool is given the
    [len] bytes found at [buffer]. *)
Definition do_add (mem : list byte) (len entropy : Z) : prog Z :=
  let data := take (Z.to_nat len) mem in
  on_pool (fun p => rand_pool_add p data len entropy) (Ev_add data len entropy).

Definition do_LoadLibraryExA (name : string) (hFile flags : Z) : prog Z :=
  on_os (LoadLibraryExA name hFile flags) (Ev_LoadLibraryExA name flags).
Definition do_GetProcAddress (hm : Z) (name : string) : prog Z :=
  on_os (GetProcAddress hm name) (Ev_GetProcAddress hm name).
Definition do_FreeLibrary (hm : Z) : prog Z :=
  on_os (FreeLibrary hm) (fun _ => Ev_FreeLibrary hm).
Definition do_CryptAcquireContextW (container provider : option string)
    (provtype flags : Z) : prog (Z * Z) :=
  on_os (CryptAcquireContextW container provider provtype flags)
        (fun r => Ev_CryptAcquireContextW provider provtype flags r.1 r.2).
Definition do_CryptReleaseContext (hProv flags : Z) : prog Z :=
  on_os (CryptReleaseContext hProv flags) (fun _ => Ev_CryptReleaseContext hProv).
Definition do_GetCurrentProcessId : prog Z :=
  on_os GetCurrentProcessId Ev_GetCurrentProcessId.
Definition do_GetCurrentThreadId : prog Z :=
  on_os GetCurrentThreadId Ev_GetCurrentThreadId.
Definition do_GetSystemTimeAsFileTime : prog (Z * Z) :=
  on_os GetSystemTimeAsFileTime (fun r => Ev_GetSystemTimeAsFileTime r.1 r.2).
Definition do_QueryPerformanceCounter : prog (Z * Z) :=
  on_os QueryPerformanceCounter (fun r => Ev_QueryPerformanceCounter r.1 r.2).

(** [pfn(NULL, buffer, cb, flags)]: Windows fills the pool's memory at
    [buffer] and reports a status; the length is passed as a [ULONG]. *)
Definition do_BCryptGenRandom (pfn hAlg buffer cb flags : Z) : prog Z :=
  fun s =>
    match call_BCryptGenRandom pfn hAlg (to_ULONG cb) flags (os s) with
    | (status, written, o) =>
        (Next status,
         State (rand_pool_buffer_write (pool s) buffer written) o (s_pfnBCryptGenRandom s),
         [Ev_BCryptGenRandom pfn (to_ULONG cb) flags status])
    end.

(** [CryptGenRandom(hProvider, dwLen, buffer)], [dwLen] a [DWORD]. *)
Definition do_CryptGenRandom (hProv len buffer : Z) : prog Z :=
  fun s =>
    match CryptGenRandom hProv (to_ULONG len) (os s) with
    | (r, written, o) =>
        (Next r,
         State (rand_pool_buffer_write (pool s) buffer written) o (s_pfnBCryptGenRandom s),
         [Ev_CryptGenRandom hProv (to_ULONG len) r])
    end.

(** [InterlockedCompareExchangePointer(&s_pfnBCryptGenRandom, exchange,
    comparand)]: returns the value found, and stores [exchange] if that
    value is [comparand]. *)
Definition InterlockedCompareExchangePointer (exchange comparand : Z) : prog Z :=
  fun s =>
    let found := s_pfnBCryptGenRandom s in
    (Next found,
     State (pool s) (os s) (if found =? comparand then exchange else found),
     []).

(** *** [rand_pool_acquire_entropy], lines 48-151 *)

(** Lines 79-95: the lazy binding of [BCryptGenRandom].  The value is the
    local [pfnBCryptGenRandom] at line 96. *)
Definition bind_BCryptGenRandom (a : arch) : prog Z :=
  let* pfnBCryptGenRandom := InterlockedCompareExchangePointer 0 0 in
  if pfnBCryptGenRandom =? PFN_BCryptGenRandom_NOTSET a then
    let* hmBCrypt := do_LoadLibraryExA "BCRYPT.dll" NULL LOAD_LIBRARY_SEARCH_SYSTEM32 in
    let* pfnBCryptGenRandom :=
      (if negb (hmBCrypt =? NULL)
       then do_GetProcAddress hmBCrypt "BCryptGenRandom"
       else ret NULL) in
    let* pfnBCryptGenRandom2 :=
      InterlockedCompareExchangePointer pfnBCryptGenRandom (PFN_BCryptGenRandom_NOTSET a) in
    if negb (pfnBCryptGenRandom2 =? PFN_BCryptGenRandom_NOTSET a) then
      do (if negb (hmBCrypt =? NULL) then do_FreeLibrary hmBCrypt else ret 0) then
      ret pfnBCryptGenRandom2
    else ret pfnBCryptGenRandom
  else ret pfnBCryptGenRandom.

(** Lines 97-107: one attempt through the bound function.  The value is
    [entropy_available] at line 108. *)
Definition attempt_BCryptGenRandom (a : arch) (pfnBCryptGenRandom entropy_available : Z)
    : prog Z :=
  let* bytes_needed := do_bytes_needed 1 in
  let* buffer := do_add_begin bytes_needed in
  if negb (buffer =? NULL) then
    let bytes := 0 in
    let* status := do_BCryptGenRandom pfnBCryptGenRandom NULL buffer bytes_needed
                     BCRYPT_USE_SYSTEM_PREFERRED_RNG in
    let bytes := if status =? STATUS_SUCCESS then bytes_needed else bytes in
    do do_add_end bytes (size_t_mul a 8 bytes) then
    do_entropy_available
  else ret entropy_available.

(** Lines 112-127 and lines 131-146: one attempt through a CryptoAPI
    provider; the two blocks differ in the provider they name.  The value
    is [entropy_available] at line 128, respectively line 147. *)
Definition attempt_CryptoAPI (a : arch) (provider : option string) (provtype : Z)
    (entropy_available : Z) : prog Z :=
  let* bytes_needed := do_bytes_needed 1 in
  let* buffer := do_add_begin bytes_needed in
  if negb (buffer =? NULL) then
    let bytes := 0 in
    let* acquired := do_CryptAcquireContextW None provider provtype
                       (Z.lor CRYPT_VERIFYCONTEXT CRYPT_SILENT) in
    let hProvider := acquired.2 in
    let* bytes :=
      (if negb (acquired.1 =? 0) then
         let* filled := do_CryptGenRandom hProvider bytes_needed buffer in
         let bytes := if negb (filled =? 0) then bytes_needed else bytes in
         do do_CryptReleaseContext hProvider 0 then
         ret bytes
       else ret bytes) in
    do do_add_end bytes (size_t_mul a 8 bytes) then
    do_entropy_available
  else ret entropy_available.

(** [if (entropy_available > 0) return entropy_available;] *)
Definition return_if_positive (entropy_available : Z) : prog Z :=
  if 0 <? entropy_available then return_ entropy_available else ret entropy_available.

Definition rand_pool_acquire_entropy_body (cfg : build) : prog Z :=
  let entropy_available := 0 in
  let* entropy_available :=
    (if OPENSSL_RAND_SEED_RDTSC cfg then
       let* entropy_available := do_from_tsc in
       return_if_positive entropy_available
     else ret entropy_available) in
  let* entropy_available :=
    (if OPENSSL_RAND_SEED_RDCPU cfg then
       let* entropy_available := do_from_cpu in
       return_if_positive entropy_available
     else ret entropy_available) in
  let* entropy_available :=
    (if USE_BCRYPTGENRANDOM cfg then
       let* pfnBCryptGenRandom := bind_BCryptGenRandom (target cfg) in
       if negb (pfnBCryptGenRandom =? NULL) then
         let* entropy_available :=
           attempt_BCryptGenRandom (target cfg) pfnBCryptGenRandom entropy_available in
         return_if_positive entropy_available
       else ret entropy_available
     else ret entropy_available) in
  let* entropy_available :=
    attempt_CryptoAPI (target cfg) None PROV_RSA_FULL entropy_available in
  let* entropy_available := return_if_positive entropy_available in
  let* entropy_available :=
    attempt_CryptoAPI (target cfg) (Some INTEL_DEF_PROV) PROV_INTEL_SEC entropy_available in
  let* entropy_available := return_if_positive entropy_available in
  let* available := do_entropy_available in
  return_ available.

Definition rand_pool_acquire_entropy (cfg : build) (s : state RAND_POOL OS)
    : Z * state RAND_POOL OS * list event :=
  call (rand_pool_acquire_entropy_body cfg) s.

(** *** The nonce generators, lines 154-195 *)

(** [struct { DWORD pid; DWORD tid; FILETIME time; }]: three members of
    4, 4 and 8 bytes ([FILETIME] is two [DWORD]s), no padding. *)
Definition nonce_sizeof : nat := 16.
Definition nonce_pid : nat := 0.
Definition nonce_tid : nat := 4.
Definition nonce_time : nat := 8.

(** [struct { DWORD tid; LARGE_INTEGER time; }]: [LARGE_INTEGER] is
    aligned on 8 bytes, so bytes 4-7 are padding. *)
Definition additional_sizeof : nat := 16.
Definition additional_tid : nat := 0.
Definition additional_time : nat := 8.

(** [stack] is what the stack slot of [data] holds when the function is
    entered; nothing has initialised it. *)
Definition rand_pool_add_nonce_data_body (stack : list byte) : prog Z :=
  let data := stack in
  let data := memset data 0 nonce_sizeof in
  let* pid := do_GetCurrentProcessId in
  let data := store data nonce_pid (le_bytes 4 pid) in
  let* tid := do_GetCurrentThreadId in
  let data := store data nonce_tid (le_bytes 4 tid) in
  let* time := do_GetSystemTimeAsFileTime in
  let data := store data nonce_time (le_bytes 4 time.1 ++ le_bytes 4 time.2) in
  let* added := do_add data (Z.of_nat nonce_sizeof) 0 in
  return_ added.

Definition rand_pool_add_nonce_data (stack : list byte) (s : state RAND_POOL OS)
    : Z * state RAND_POOL OS * list event :=
  call (rand_pool_add_nonce_data_body stack) s.

Definition rand_pool_add_additional_data_body (stack : list byte) : prog Z :=
  let data := stack in
  let data := memset data 0 additional_sizeof in
  let* tid := do_GetCurrentThreadId in
  let data := store data additional_tid (le_bytes 4 tid) in
  let* counter := do_QueryPerformanceCounter in
  let data := store data additional_time (le_bytes 8 counter.2) in
  let* added := do_add data (Z.of_nat additional_sizeof) 0 in
  return_ added.

Definition rand_pool_add_additional_data (stack : list byte) (s : state RAND_POOL OS)
    : Z * state RAND_POOL OS * list event :=
  call (rand_pool_add_additional_data_body stack) s.

(** The second body with the [memset] left out, to compare with. *)
Definition additional_data_without_memset (stack : list byte) : prog Z :=
  let data := stack in
  let* tid := do_GetCurrentThreadId in
  let data := store data additional_tid (le_bytes 4 tid) in
  let* counter := do_QueryPerformanceCounter in
  let data := store data additional_time (le_bytes 8 counter.2) in
  let* added := do_add data (Z.of_nat additional_sizeof) 0 in
  return_ added.

(** *** The order of the sources, in the words of the design document *)

Inductive source : Type :=
| TimingJitter
| CpuRng
| BCryptBinding
| CryptoApiRsaFull
| CryptoApiIntel.

Definition priority_order : list source :=
  [TimingJitter; CpuRng; BCryptBinding; CryptoApiRsaFull; CryptoApiIntel].

(** Whether the build contains the source at all. *)
Definition compiled_in (cfg : build) (src : source) : bool :=
  match src with
  | TimingJitter => OPENSSL_RAND_SEED_RDTSC cfg
  | CpuRng => OPENSSL_RAND_SEED_RDCPU cfg
  | BCryptBinding => USE_BCRYPTGENRANDOM cfg
  | CryptoApiRsaFull | CryptoApiIntel => true
  end.

(** One attempt of a source; its value is the entropy the orchestrator
    sees after it.  A source that could not reserve a buffer, and a
    binding that is absent, leave that at zero. *)
Definition attempt (cfg : build) (src : source) : prog Z :=
  match src with
  | TimingJitter => do_from_tsc
  | CpuRng => do_from_cpu
  | BCryptBinding =>
      let* pfnBCryptGenRandom := bind_BCryptGenRandom (target cfg) in
      if negb (pfnBCryptGenRandom =? NULL)
      then attempt_BCryptGenRandom (target cfg) pfnBCryptGenRandom 0
      else ret 0
  | CryptoApiRsaFull => attempt_CryptoAPI (target cfg) None PROV_RSA_FULL 0
  | CryptoApiIntel => attempt_CryptoAPI (target cfg) (Some INTEL_DEF_PROV) PROV_INTEL_SEC 0
  end.

(** Try the sources in order; stop at the first one after which the
    entropy seen is positive and return it; after the last one return
    what the pool reports. *)
Fixpoint try_in_order (cfg : build) (srcs : list source) (s : state RAND_POOL OS)
    : Z * state RAND_POOL OS * list event :=
  match srcs with
  | [] => call do_entropy_available s
  | src :: rest =>
      match call (attempt cfg src) s with
      | (entropy_available, s1, t1) =>
          if 0 <? entropy_available then (entropy_available, s1, t1)
          else
            match try_in_order cfg rest s1 with
            | (v, s2, t2) => (v, s2, t1 ++ t2)
            end
      end
  end.
End Source.

(** ** The pool *)

Module EntropyPool.

(** Modelled from the spec: the pool ([RAND_POOL]) and its operations live
    in [rand_lib.c], which is not among the sources; this is the
    EntropyPool of the design document, section 3 and section 4.1.
    [buffer] holds the bytes written, oldest first; [capacity] is the hard
    maximum; [consumed] is the capacity reservations have taken, used or
    wasted; [reservation] is the writable region of the open reservation. *)
Record t : Type := Pool {
  buffer : list byte;
  capacity : Z;
  consumed : Z;
  reservation : option (list byte);
  entropy_bits_credited : Z;
  min_bytes_needed : Z;
  max_entropy_bits : Z
}.

(** Modelled from the spec: "bytes_written (count)". *)
Definition bytes_written (p : t) : Z := Z.of_nat (length (buffer p)).

(** Modelled from the spec: the "remaining capacity" a reservation is
    measured against. *)
Definition remaining (p : t) : Z := capacity p - consumed p.

(** Modelled from the spec: "created per acquisition call". *)
Definition create (capacity min_bytes_needed max_entropy_bits : Z) : t :=
  Pool [] capacity 0 None 0 min_bytes_needed max_entropy_bits.

(** Modelled from the spec: "reserve(n): returns a writable region of
    exactly n bytes if capacity allows, else none.  No partial
    reservations"; "reserving with zero available capacity yields no
    buffer"; "reserving more bytes than remaining capacity returns none and
    does not mutate pool state".  The result says whether a region was
    handed out. *)
Definition reserve (p : t) (n : Z) : bool * t :=
  if (0 <? remaining p) && (0 <=? n) && (n <=? remaining p) then
    (true,
     Pool (buffer p) (capacity p) (consumed p + n)
          (Some (replicate (Z.to_nat n) x00))
          (entropy_bits_credited p) (min_bytes_needed p) (max_entropy_bits p))
  else (false, p).

(** Modelled from the spec: a source "fills" the region it reserved
    (section 2); a write of [data] at the start of the reserved region,
    which keeps its size. *)
Definition fill (p : t) (data : list byte) : t :=
  match reservation p with
  | Some region =>
      Pool (buffer p) (capacity p) (consumed p)
           (Some (take (length region) (data ++ drop (length data) region)))
           (entropy_bits_credited p) (min_bytes_needed p) (max_entropy_bits p)
  | None => p
  end.

(** Modelled from the spec: the credit of a commit is "entropy_bits_claimed
    bits, clipped to 8 * bytes_actually_valid and to the remaining room
    under max_entropy_bits"; the counter is "monotonically
    non-decreasing". *)
Definition credit (p : t) (bytes_actually_valid entropy_bits_claimed : Z) : Z :=
  Z.max 0 (Z.min entropy_bits_claimed
             (Z.min (8 * bytes_actually_valid)
                    (max_entropy_bits p - entropy_bits_credited p))).

(** Modelled from the spec: "commit(bytes_actually_valid,
    entropy_bits_claimed): records that bytes_actually_valid bytes of the
    reserved region are meaningful and credits entropy_bits_claimed bits,
    clipped [...]"; "a reserve operation followed by a commit operation
    must commit with committed_bytes <= reserved_bytes".  A commit that
    breaks the latter, or that has no reservation, changes nothing. *)
Definition commit (p : t) (bytes_actually_valid entropy_bits_claimed : Z) : t :=
  match reservation p with
  | Some region =>
      if (0 <=? bytes_actually_valid) && (bytes_actually_valid <=? Z.of_nat (length region))
      then
        Pool (buffer p ++ take (Z.to_nat bytes_actually_valid) region)
             (capacity p) (consumed p) None
             (entropy_bits_credited p + credit p bytes_actually_valid entropy_bits_claimed)
             (min_bytes_needed p) (max_entropy_bits p)
      else p
  | None => p
  end.

(** Modelled from the spec: "available_entropy() -> bits: returns current
    credited entropy". *)
Definition available_entropy (p : t) : Z := entropy_bits_credited p.

(** Modelled from the spec: the "add bytes with [...] claimed entropy"
    path of section 4.4, which has "no failure path": the bytes are
    reserved, written and committed when the pool has room for them, and
    the result is the success boolean in either case. *)
Definition add (p : t) (data : list byte) (len entropy : Z) : Z * t :=
  match reserve p len with
  | (true, p1) => (1, commit (fill p1 data) len entropy)
  | (false, p1) => (1, p1)
  end.

(** Modelled from the spec: the "writable_buffer" of a reservation, as
    the address the caller sees; never [NULL]. *)
Definition region_pointer (p : t) : Z := Z.max 1 (1 + consumed p).

(** Modelled from the spec: one operation on a pool, and a sequence of
    them. *)
Inductive op : Type :=
| Reserve (n : Z)
| Fill (data : list byte)
| Commit (bytes_actually_valid entropy_bits_claimed : Z)
| Add (data : list byte) (len entropy : Z).

Definition apply (p : t) (o : op) : t :=
  match o with
  | Reserve n => (reserve p n).2
  | Fill data => fill p data
  | Commit b e => commit p b e
  | Add data len e => (add p data len e).2
  end.

Definition run (ops : list op) (p : t) : t := foldl apply p ops.

(** The accounting invariant of the pool, with [M] the configured
    maximum. *)
Definition accounted (M : Z) (p : t) : Prop :=
  available_entropy p <= 8 * bytes_written p /\
  available_entropy p <= M /\
  max_entropy_bits p = M.

(** Modelled from the spec: the interface of [rand_local.h] on this pool.
    The design document fixes no formula for [bytes_needed] and does not
    describe the two hardware sources beyond their contract, so the
    instance takes them as arguments. *)
Definition rand_local (bytes_needed : t -> Z -> Z) (from_tsc from_cpu : t -> Z * t)
    : RandLocal t := {|
  rand_pool_bytes_needed p entropy_factor := (bytes_needed p entropy_factor, p);
  rand_pool_add_begin p len :=
    match reserve p len with
    | (true, p1) => (region_pointer p, p1)
    | (false, p1) => (NULL, p1)
    end;
  rand_pool_buffer_write p buffer data :=
    if buffer =? NULL then p else fill p data;
  rand_pool_add_end p len entropy := (1, commit p len entropy);
  rand_pool_add := add;
  rand_pool_entropy_available p := (available_entropy p, p);
  rand_acquire_entropy_from_tsc := from_tsc;
  rand_acquire_entropy_from_cpu := from_cpu
|}.

(** An instance to run examples on: as many bytes as the target still
    lacks, times the factor; hardware sources that contribute nothing. *)
Definition deficit_bytes (p : t) (entropy_factor : Z) : Z :=
  entropy_factor * Z.max 0 (min_bytes_needed p - bytes_written p).

Definition no_hardware (p : t) : Z * t := (available_entropy p, p).

Definition example_rand_local : RandLocal t :=
  rand_local deficit_bytes no_hardware no_hardware.

End EntropyPool.

(** ** A scripted Windows, to run examples on *)

Module Script.

(** What the machine answers: the module handle and entry point of
    [BCRYPT.dll] (0 when absent), the status its generator reports, and
    for each CryptoAPI provider the result of acquiring it, its handle and
    the result of its generator. *)
Record os : Type := Os {
  bcrypt_dll : Z;
  bcrypt_entry : Z;
  bcrypt_status : Z;
  rsa_full : Z * Z;
  rsa_full_fill : Z;
  intel : Z * Z;
  intel_fill : Z;
  pid : Z;
  tid : Z;
  clock : Z
}.

Definition tick (o : os) : os :=
  Os (bcrypt_dll o) (bcrypt_entry o) (bcrypt_status o) (rsa_full o) (rsa_full_fill o)
     (intel o) (intel_fill o) (pid o) (tid o) (clock o + 1).

Definition random_bytes (n : Z) : list byte := replicate (Z.to_nat n) x5a.

Definition windows : Windows os := {|
  LoadLibraryExA _ _ _ o := (bcrypt_dll o, o);
  GetProcAddress _ _ o := (bcrypt_entry o, o);
  FreeLibrary _ o := (1, o);
  call_BCryptGenRandom _ _ cb _ o :=
    (bcrypt_status o, if bcrypt_status o =? 0 then random_bytes cb else [], o);
  CryptAcquireContextW _ _ provtype _ o :=
    (if provtype =? PROV_RSA_FULL then rsa_full o else intel o, o);
  CryptGenRandom hProv len o :=
    let r := if hProv =? (rsa_full o).2 then rsa_full_fill o else intel_fill o in
    (r, if r =? 0 then [] else random_bytes len, o);
  CryptReleaseContext _ _ o := (1, o);
  GetCurrentProcessId o := (pid o, o);
  GetCurrentThreadId o := (tid o, o);
  GetSystemTimeAsFileTime o := ((clock o mod 2 ^ 32, clock o / 2 ^ 32), tick o);
  QueryPerformanceCounter o := ((1, clock o), tick o)
|}.

(** A machine with a working [BCRYPT.dll] and a working RSA_FULL
    provider, and no Intel provider. *)
Definition modern : os :=
  Os 0x7ff80000 0x7ff81230 0 (1, 77) 1 (0, 0) 0 4242 17 1000.

(** The same machine without [BCRYPT.dll]. *)
Definition legacy : os :=
  Os 0 0 0 (1, 77) 1 (0, 0) 0 4242 17 1000.

(** A machine on which every source fails. *)
Definition barren : os :=
  Os 0 0 0 (0, 0) 0 (0, 0) 0 4242 17 1000.

(** A 64-bit build for Vista or later, without the hardware sources. *)
Definition vista64 : build := Build Win64 false false true.

(** A first call in a process: a fresh pool with a target of 32 bytes and
    256 bits, and the static not yet set. *)
Definition first_call (o : os) : state EntropyPool.t os :=
  State (EntropyPool.create 64 32 256) o (PFN_BCryptGenRandom_NOTSET Win64).

(** A later call: a fresh pool again, the static as the process left it. *)
Definition later_call (o : os) (static : Z) : state EntropyPool.t os :=
  State (EntropyPool.create 64 32 256) o static.

End Script.

(** ** Properties of traces, as monitors *)

(** A monitor reads a trace event by event; [None] says the trace broke
    the rule the monitor checks. *)
Fixpoint scan {Q : Type} (delta : Q -> event -> option Q) (q : Q) (t : list event)
    : option Q :=
  match t with
  | [] => Some q
  | e :: t' =>
      match delta q e with
      | Some q' => scan delta q' t'
      | None => None
      end
  end.

(** The calls that fill, or prepare to fill, a reserved buffer. *)
Definition is_fill_call (e : event) : bool :=
  match e with
  | Ev_BCryptGenRandom _ _ _ _
  | Ev_CryptAcquireContextW _ _ _ _ _
  | Ev_CryptGenRandom _ _ _
  | Ev_CryptReleaseContext _ => true
  | _ => false
  end.

(** Reservation protocol.  The state says whether a reservation is open.
    [rand_pool_add_begin] needs none open and opens one exactly when it
    returns a buffer; [rand_pool_add_end] needs one open, must claim
    [8 * len] bits, and closes it; the operating system is asked to fill
    only while one is open. *)
Definition reservation_protocol (a : arch) (open : bool) (e : event) : option bool :=
  match e with
  | Ev_add_begin _ buffer => if open then None else Some (negb (buffer =? NULL))
  | Ev_add_end len entropy =>
      if open && (entropy =? size_t_mul a 8 len) then Some false else None
  | _ => if is_fill_call e then (if open then Some true else None) else Some open
  end.

(** All or nothing.  [Filling n ok]: a reservation of [n] bytes is open and
    [ok] tells whether a generator has reported success for it:
    [STATUS_SUCCESS] from [BCryptGenRandom], non-zero ([TRUE]) from
    [CryptGenRandom].  The generator must be asked for the [n] bytes
    reserved, and the commit must be of [n] bytes after a success and of 0
    bytes otherwise. *)
Inductive crediting : Type :=
| Idle
| Filling (n : Z) (ok : bool).

Definition all_or_nothing (q : crediting) (e : event) : option crediting :=
  match e, q with
  | Ev_add_begin len buffer, Idle =>
      Some (if buffer =? NULL then Idle else Filling len false)
  | Ev_add_begin _ _, Filling _ _ => None
  | Ev_BCryptGenRandom _ cb _ status, Filling n _ =>
      if cb =? to_ULONG n then Some (Filling n (status =? STATUS_SUCCESS)) else None
  | Ev_CryptGenRandom _ len r, Filling n _ =>
      if len =? to_ULONG n then Some (Filling n (negb (r =? 0))) else None
  | Ev_BCryptGenRandom _ _ _ _, Idle => None
  | Ev_CryptGenRandom _ _ _, Idle => None
  | Ev_add_end len _, Filling n ok =>
      if len =? (if ok then n else 0) then Some Idle else None
  | Ev_add_end _ _, Idle => None
  | _, _ => Some q
  end.

(** Provider handles.  [held] is the handle acquired and not yet released;
    [verdict] is [Some ok] once the current attempt has tried to acquire a
    provider, [ok] telling whether its generator then succeeded.  Acquiring
    needs no handle held; generating and releasing need the handle held;
    the commit needs the handle released, and must be of 0 bytes when the
    acquisition or the fill failed. *)
Record custody : Type := Custody {
  held : option Z;
  verdict : option bool
}.

Definition handle_custody (q : custody) (e : event) : option custody :=
  match e with
  | Ev_add_begin _ _ =>
      match held q with None => Some (Custody None None) | Some _ => None end
  | Ev_CryptAcquireContextW _ _ _ r hProv =>
      match held q with
      | None => Some (Custody (if r =? 0 then None else Some hProv) (Some false))
      | Some _ => None
      end
  | Ev_CryptGenRandom hProv _ r =>
      match held q with
      | Some h => if h =? hProv then Some (Custody (held q) (Some (negb (r =? 0)))) else None
      | None => None
      end
  | Ev_CryptReleaseContext hProv =>
      match held q with
      | Some h => if h =? hProv then Some (Custody None (verdict q)) else None
      | None => None
      end
  | Ev_add_end len _ =>
      match held q, verdict q with
      | Some _, _ => None
      | None, Some false => if len =? 0 then Some (Custody None None) else None
      | None, _ => Some (Custody None None)
      end
  | _ => Some q
  end.

(** The lookups of the lazy binding. *)
Definition is_lookup (e : event) : bool :=
  match e with
  | Ev_LoadLibraryExA _ _ _ | Ev_GetProcAddress _ _ _ => true
  | _ => false
  end.

(** A lookup that found nothing. *)
Definition failed_lookup (e : event) : bool :=
  match e with
  | Ev_LoadLibraryExA _ _ r | Ev_GetProcAddress _ _ r => r =? NULL
  | _ => false
  end.

(** [GetProcAddress] answers with the address of a function or with
    [NULL], never with the all-ones pattern. *)
Definition plausible_answer (a : arch) (e : event) : bool :=
  match e with
  | Ev_GetProcAddress _ _ r => negb (r =? PFN_BCryptGenRandom_NOTSET a)
  | _ => true
  end.

(** The entropy arguments of the [rand_pool_add] calls in a trace. *)
Definition add_entropies (t : list event) : list Z :=
  omap (fun e => match e with Ev_add _ _ entropy _ => Some entropy | _ => None end) t.

(** The bytes handed to [rand_pool_add] in a trace. *)
Definition added_bytes (t : list event) : list (list byte) :=
  omap (fun e => match e with Ev_add data _ _ _ => Some data | _ => None end) t.

(** ** Threads racing through lines 79-95 *)

Module Race.

(** Where a thread stands, with the locals it has set: before line 79;
    before line 84, having read [NOTSET]; before lines 85-88 with
    [hmBCrypt]; before the exchange of line 90 with [hmBCrypt] and
    [pfnBCryptGenRandom]; before line 92, having lost, with [hmBCrypt] and
    [pfnBCryptGenRandom2]; at line 96 with [pfnBCryptGenRandom]. *)
Inductive pc : Type :=
| At79
| At84
| At85 (hmBCrypt : Z)
| At90 (hmBCrypt pfnBCryptGenRandom : Z)
| At92 (hmBCrypt pfnBCryptGenRandom2 : Z)
| At96 (pfnBCryptGenRandom : Z).

(** The process: the static, the number of successful [LoadLibraryExA]
    calls and of [FreeLibrary] calls so far, and the threads. *)
Record world : Type := World {
  static : Z;
  loads : nat;
  frees : nat;
  threads : list pc
}.

Definition init (a : arch) (n : nat) : world :=
  World (PFN_BCryptGenRandom_NOTSET a) 0 0 (replicate n At79).

(** One atomic step of thread [i].  [answer] is what Windows returns if
    the step is a call of [LoadLibraryExA] or [GetProcAddress]. *)
Definition step (a : arch) (w : world) (i : nat) (answer : Z) : world :=
  match threads w !! i with
  | None => w
  | Some At79 =>
      let found := static w in
      let here := if found =? PFN_BCryptGenRandom_NOTSET a then At84 else At96 found in
      World (if found =? 0 then 0 else found) (loads w) (frees w) (<[i := here]> (threads w))
  | Some At84 =>
      let hmBCrypt := answer in
      World (static w) (if hmBCrypt =? NULL then loads w else S (loads w)) (frees w)
            (<[i := At85 hmBCrypt]> (threads w))
  | Some (At85 hmBCrypt) =>
      let pfnBCryptGenRandom := if negb (hmBCrypt =? NULL) then answer else NULL in
      World (static w) (loads w) (frees w)
            (<[i := At90 hmBCrypt pfnBCryptGenRandom]> (threads w))
  | Some (At90 hmBCrypt pfnBCryptGenRandom) =>
      let found := static w in
      let here :=
        if negb (found =? PFN_BCryptGenRandom_NOTSET a)
        then At92 hmBCrypt found
        else At96 pfnBCryptGenRandom in
      World (if found =? PFN_BCryptGenRandom_NOTSET a then pfnBCryptGenRandom else found)
            (loads w) (frees w) (<[i := here]> (threads w))
  | Some (At92 hmBCrypt pfnBCryptGenRandom2) =>
      World (static w) (loads w)
            (if negb (hmBCrypt =? NULL) then S (frees w) else frees w)
            (<[i := At96 pfnBCryptGenRandom2]> (threads w))
  | Some (At96 _) => w
  end.

(** A schedule names, step by step, the thread that moves and the answer
    of Windows to it. *)
Definition run (a : arch) (schedule : list (nat * Z)) (w : world) : world :=
  foldl (fun w mv => step a w mv.1 mv.2) w schedule.

Definition finished (p : pc) : bool :=
  match p with At96 _ => true | _ => false end.

(** [GetProcAddress] returns the address of a function or [NULL], never
    the all-ones pattern. *)
Definition plausible (a : arch) (schedule : list (nat * Z)) : Prop :=
  Forall (fun mv : nat * Z => mv.2 <> PFN_BCryptGenRandom_NOTSET a) schedule.

(** Library references a thread holds that are neither released nor
    adopted by the process yet. *)
Definition in_hand (p : pc) : nat :=
  match p with
  | At85 hm | At90 hm _ | At92 hm _ => if hm =? NULL then 0%nat else 1%nat
  | _ => 0%nat
  end.

(** Threads that have not called [LoadLibraryExA] yet. *)
Definition before_load (p : pc) : nat :=
  match p with
  | At79 | At84 => 1%nat
  | _ => 0%nat
  end.

(** What a thread's locals are worth while the static holds [st]: the
    value it is about to publish is resolved, and a value it has taken from
    the static is that of the static, which is resolved. *)
Definition thread_ok (a : arch) (st : Z) (p : pc) : Prop :=
  match p with
  | At79 | At84 | At85 _ => True
  | At90 _ pfn => pfn <> PFN_BCryptGenRandom_NOTSET a
  | At92 _ v | At96 v => v = st /\ st <> PFN_BCryptGenRandom_NOTSET a
  end.

(** The invariant of the race among [n] threads.  [kept] counts the
    reference the process keeps for good: that of the thread whose exchange
    succeeded. *)
Definition invariant (a : arch) (n : nat) (w : world) : Prop :=
  length (threads w) = n /\
  exists kept : nat,
    (kept <= 1)%nat /\
    loads w = (frees w + kept + sum_list_with in_hand (threads w))%nat /\
    (loads w + sum_list_with before_load (threads w) <= n)%nat /\
    (static w = PFN_BCryptGenRandom_NOTSET a -> kept = 0%nat) /\
    Forall (thread_ok a (static w)) (threads w).

End Race.

(** ** Judgements on programs *)

Section Judgements.
Context {RAND_POOL OS : Type} `{RandLocal RAND_POOL} `{Windows OS}.

(** From monitor state [q], the trace of [m] takes the monitor to
    [post a] when [m] falls through with [a], and to [qret] when [m]
    executes [return]. *)
Definition obeys {Q A : Type} (delta : Q -> event -> option Q)
    (q : Q) (m : @M RAND_POOL OS A) (post : A -> Q) (qret : Q) : Prop :=
  forall s,
    match m s with
    | (Next a, _, t) => scan delta q t = Some (post a)
    | (Returned _, _, t) => scan delta q t = Some qret
    end.

(** Every run of [m] relates the state before, the state after and the
    trace by [R]. *)
Definition satisfies {A : Type}
    (R : state RAND_POOL OS -> state RAND_POOL OS -> list event -> Prop)
    (m : @M RAND_POOL OS A) : Prop :=
  forall s, match m s with (_, s1, t) => R s s1 t end.

(** The static is left as it was and no lookup is performed. *)
Definition quiet (s s1 : state RAND_POOL OS) (t : list event) : Prop :=
  s_pfnBCryptGenRandom s1 = s_pfnBCryptGenRandom s /\
  Forall (fun e => is_lookup e = false) t.

(** What a run does to the lazy binding: a static that is resolved stays
    as it is and no lookup is made; a lookup that failed leaves the static
    at [NULL]; any lookup leaves the static resolved, as long as
    [GetProcAddress] answers plausibly. *)
Definition settles (a : arch) (s s1 : state RAND_POOL OS) (t : list event) : Prop :=
  (s_pfnBCryptGenRandom s <> PFN_BCryptGenRandom_NOTSET a ->
   s_pfnBCryptGenRandom s1 = s_pfnBCryptGenRandom s /\
   Forall (fun e => is_lookup e = false) t) /\
  (Exists (fun e => failed_lookup e = true) t ->
   s_pfnBCryptGenRandom s1 = NULL) /\
  (Forall (fun e => plausible_answer a e = true) t ->
   Exists (fun e => is_lookup e = true) t ->
   s_pfnBCryptGenRandom s1 <> PFN_BCryptGenRandom_NOTSET a).

(** [m] leaves the pool in [I] when it finds it there. *)
Definition keeps_pool {A : Type} (I : RAND_POOL -> Prop) (m : @M RAND_POOL OS A) : Prop :=
  satisfies (fun s s1 _ => I (pool s) -> I (pool s1)) m.

(** Two programs that fall through in the same state with the same
    trace, and with values that are equal or both not positive: the
    orchestrator cannot tell them apart. *)
Definition alike (p q : @M RAND_POOL OS Z) : Prop :=
  forall s, exists v w s1 t,
    p s = (Next v, s1, t) /\ q s = (Next w, s1, t) /\
    (v = w \/ ((0 <? v) = false /\ (0 <? w) = false)).

(** [m] falls through, it contains no [return]. *)
Definition falls_through {A : Type} (m : @M RAND_POOL OS A) : Prop :=
  forall s, exists a s1 t, m s = (Next a, s1, t).
End Judgements.

(** ** The shape of an attempt *)

(** What lines 79-95 leave in the trace when no other thread interferes,
    from the static found to the pointer bound: nothing when the static is
    resolved; the failed load; the load and the lookup. *)
Inductive resolution (a : arch) : Z -> Z -> list event -> Prop :=
| resolution_cached (st : Z) :
    st <> PFN_BCryptGenRandom_NOTSET a ->
    resolution a st st []
| resolution_absent (hm : Z) :
    (hm =? NULL) = true ->
    resolution a (PFN_BCryptGenRandom_NOTSET a) NULL
      [Ev_LoadLibraryExA "BCRYPT.dll" LOAD_LIBRARY_SEARCH_SYSTEM32 hm]
| resolution_looked_up (hm pfn : Z) :
    (hm =? NULL) = false ->
    resolution a (PFN_BCryptGenRandom_NOTSET a) pfn
      [Ev_LoadLibraryExA "BCRYPT.dll" LOAD_LIBRARY_SEARCH_SYSTEM32 hm;
       Ev_GetProcAddress hm "BCryptGenRandom" pfn].

(** What lines 97-107 leave in the trace, with the entropy seen after
    them: a reservation that got no buffer; or the call through [pfn], the
    commit and the probe. *)
Inductive through_BCrypt (a : arch) (pfn : Z) : Z -> list event -> Prop :=
| BCrypt_no_room (n buffer : Z) :
    (buffer =? NULL) = true ->
    through_BCrypt a pfn 0 [Ev_bytes_needed 1 n; Ev_add_begin n buffer]
| BCrypt_called (n buffer status v : Z) :
    (buffer =? NULL) = false ->
    through_BCrypt a pfn v
      [Ev_bytes_needed 1 n; Ev_add_begin n buffer;
       Ev_BCryptGenRandom pfn (to_ULONG n) BCRYPT_USE_SYSTEM_PREFERRED_RNG status;
       Ev_add_end (if status =? STATUS_SUCCESS then n else 0)
                  (size_t_mul a 8 (if status =? STATUS_SUCCESS then n else 0));
       Ev_entropy_available v].

(** What lines 112-127, respectively 131-146, leave in the trace: a
    reservation that got no buffer; a provider that was not acquired; a
    provider acquired, asked and released. *)
Inductive through_CryptoAPI (a : arch) (provider : option string) (provtype : Z)
    : Z -> list event -> Prop :=
| CryptoAPI_no_room (n buffer : Z) :
    (buffer =? NULL) = true ->
    through_CryptoAPI a provider provtype 0 [Ev_bytes_needed 1 n; Ev_add_begin n buffer]
| CryptoAPI_refused (n buffer r hProv v : Z) :
    (buffer =? NULL) = false ->
    (r =? 0) = true ->
    through_CryptoAPI a provider provtype v
      [Ev_bytes_needed 1 n; Ev_add_begin n buffer;
       Ev_CryptAcquireContextW provider provtype
         (Z.lor CRYPT_VERIFYCONTEXT CRYPT_SILENT) r hProv;
       Ev_add_end 0 (size_t_mul a 8 0);
       Ev_entropy_available v]
| CryptoAPI_asked (n buffer r hProv filled v : Z) :
    (buffer =? NULL) = false ->
    (r =? 0) = false ->
    through_CryptoAPI a provider provtype v
      [Ev_bytes_needed 1 n; Ev_add_begin n buffer;
       Ev_CryptAcquireContextW provider provtype
         (Z.lor CRYPT_VERIFYCONTEXT CRYPT_SILENT) r hProv;
       Ev_CryptGenRandom hProv (to_ULONG n) filled;
       Ev_CryptReleaseContext hProv;
       Ev_add_end (if negb (filled =? 0) then n else 0)
                  (size_t_mul a 8 (if negb (filled =? 0) then n else 0));
       Ev_entropy_available v].

(** One attempt of a source: the static before and after it, the entropy
    seen after it, and its trace. *)
Inductive outcome (a : arch) : source -> Z -> Z -> Z -> list event -> Prop :=
| outcome_tsc (st v : Z) :
    outcome a TimingJitter st st v [Ev_from_tsc v]
| outcome_cpu (st v : Z) :
    outcome a CpuRng st st v [Ev_from_cpu v]
| outcome_BCrypt_unavailable (st pfn : Z) (t : list event) :
    resolution a st pfn t ->
    (pfn =? NULL) = true ->
    outcome a BCryptBinding st pfn 0 t
| outcome_BCrypt (st pfn v : Z) (t1 t2 : list event) :
    resolution a st pfn t1 ->
    (pfn =? NULL) = false ->
    through_BCrypt a pfn v t2 ->
    outcome a BCryptBinding st pfn v (t1 ++ t2)
| outcome_RsaFull (st v : Z) (t : list event) :
    through_CryptoAPI a None PROV_RSA_FULL v t ->
    outcome a CryptoApiRsaFull st st v t
| outcome_Intel (st v : Z) (t : list event) :
    through_CryptoAPI a (Some INTEL_DEF_PROV) PROV_INTEL_SEC v t ->
    outcome a CryptoApiIntel st st v t.

(** A whole run over the sources [srcs]: the static before and after, the
    value returned, and the trace.  The run ends with the probe of the pool
    when no source is left; it stops at a source after which the entropy
    seen is positive; otherwise it goes on with the sources that follow. *)
Inductive chain (a : arch) : list source -> Z -> Z -> Z -> list event -> Prop :=
| chain_end (st v : Z) :
    chain a [] st st v [Ev_entropy_available v]
| chain_stop (src : source) (rest : list source) (st st1 v : Z) (t : list event) :
    outcome a src st st1 v t ->
    (0 <? v) = true ->
    chain a (src :: rest) st st1 v t
| chain_go (src : source) (rest : list source) (st st1 st2 e v : Z)
    (t1 t2 : list event) :
    outcome a src st st1 e t1 ->
    (0 <? e) = false ->
    chain a rest st1 st2 v t2 ->
    chain a (src :: rest) st st2 v (t1 ++ t2).

(** ** Further readings of a trace *)

(** The source an event invokes: the hardware source functions, the
    generator behind the binding, and the acquisition of a CryptoAPI
    provider, told apart by the provider type. *)
Definition invoked (e : event) : option source :=
  match e with
  | Ev_from_tsc _ => Some TimingJitter
  | Ev_from_cpu _ => Some CpuRng
  | Ev_BCryptGenRandom _ _ _ _ => Some BCryptBinding
  | Ev_CryptAcquireContextW _ provtype _ _ _ =>
      Some (if provtype =? PROV_RSA_FULL then CryptoApiRsaFull else CryptoApiIntel)
  | _ => None
  end.

(** What an event reports as entropy, if it is a report. *)
Definition report (e : event) : option Z :=
  match e with
  | Ev_from_tsc v | Ev_from_cpu v | Ev_entropy_available v => Some v
  | _ => None
  end.

(** The last report of a trace. *)
Definition last_report (t : list event) : option Z := last (omap report t).

Definition is_reservation (e : event) : bool :=
  match e with Ev_add_begin _ _ => true | _ => false end.

Definition is_from_tsc (e : event) : bool :=
  match e with Ev_from_tsc _ => true | _ => false end.

Definition is_from_cpu (e : event) : bool :=
  match e with Ev_from_cpu _ => true | _ => false end.

Definition is_load (e : event) : bool :=
  match e with Ev_LoadLibraryExA _ _ _ => true | _ => false end.

Definition is_free (e : event) : bool :=
  match e with Ev_FreeLibrary _ => true | _ => false end.

Definition is_BCryptBinding (src : source) : bool :=
  match src with BCryptBinding => true | _ => false end.

(** How many events of a trace satisfy [f]. *)
Definition count (f : event -> bool) (t : list event) : nat :=
  length (List.filter f t).

(** The sources of [srcs] that leave an event of the kind [f] whenever
    they have their turn: the call of a hardware source function, the
    reservation of a CryptoAPI source.  The BCrypt source leaves nothing
    when its binding is unavailable. *)
Definition owed (f : event -> bool) (srcs : list source) : nat :=
  length (List.filter
            (fun src => match src with
                        | TimingJitter => f (Ev_from_tsc 0)
                        | CpuRng => f (Ev_from_cpu 0)
                        | BCryptBinding => false
                        | CryptoApiRsaFull | CryptoApiIntel => f (Ev_add_begin 0 0)
                        end) srcs).

(** A call through the pointer [pfn] is in order when [pfn] is not [NULL]
    and is what the static holds. *)
Definition calls_through (static : Z) (e : event) : Prop :=
  match e with
  | Ev_BCryptGenRandom pfn _ _ _ => pfn <> NULL /\ pfn = static
  | _ => True
  end.

(** Sizing.  [Some n]: the pool has just answered [n] to
    [rand_pool_bytes_needed]; that question must be asked with factor 1,
    and the reservation that follows must be of [n] bytes. *)
Definition sizing (q : option Z) (e : event) : option (option Z) :=
  match e with
  | Ev_bytes_needed factor n => if factor =? 1 then Some (Some n) else None
  | Ev_add_begin len _ =>
      match q with
      | Some n => if len =? n then Some None else None
      | None => None
      end
  | _ => Some q
  end.

(** Probing.  [true]: a commit has just been made; the next event must be
    the probe of the pool. *)
Definition probing (committed : bool) (e : event) : option bool :=
  match e with
  | Ev_add_end _ _ => if committed then None else Some true
  | Ev_entropy_available _ => Some false
  | _ => if committed then None else Some false
  end.

(** ** Reading a record back *)

(** The number a little-endian byte string stands for. *)
Fixpoint le_value (bs : list byte) : Z :=
  match bs with
  | [] => 0
  | b :: bs' => Z.of_N (Byte.to_N b) + 256 * le_value bs'
  end.

(** ** The remaining functions of [rand_win.c], lines 210-221 *)

Section Lifecycle.
Context {RAND_POOL OS : Type}.

(** [int rand_pool_init(void) { return 1; }] *)
Definition rand_pool_init : @M RAND_POOL OS Z := return_ 1.

(** [void rand_pool_cleanup(void) { }] *)
Definition rand_pool_cleanup : @M RAND_POOL OS unit := ret tt.

(** [void rand_pool_keep_random_devices_open(int keep) { }] *)
Definition rand_pool_keep_random_devices_open (keep : Z) : @M RAND_POOL OS unit := ret tt.
End Lifecycle.

(** ** More on the race *)

Module RaceMore.
Import Race.

(** The steps a thread still has to take at most. *)
Definition steps_left (p : pc) : nat :=
  match p with
  | At79 => 5
  | At84 => 4
  | At85 _ => 3
  | At90 _ _ => 2
  | At92 _ _ => 1
  | At96 _ => 0
  end%nat.

(** The moves of thread [i] in a schedule. *)
Definition moves_of (i : nat) (schedule : list (nat * Z)) : nat :=
  length (List.filter (fun mv : nat * Z => Nat.eqb mv.1 i) schedule).

(** A thread about to publish holds a resolved value, and holds [NULL]
    when it holds no module. *)
Definition publishes_well (a : arch) (p : pc) : Prop :=
  match p with
  | At90 hm pfn =>
      pfn <> PFN_BCryptGenRandom_NOTSET a /\ ((hm =? NULL) = true -> pfn = NULL)
  | _ => True
  end.

(** The process keeps one reference for good exactly when the static is
    bound to a function. *)
Definition library_held (a : arch) (w : world) : Prop :=
  exists kept : nat,
    loads w = (frees w + kept + sum_list_with in_hand (threads w))%nat /\
    (static w = PFN_BCryptGenRandom_NOTSET a -> kept = 0%nat) /\
    (static w <> PFN_BCryptGenRandom_NOTSET a -> static w <> NULL -> kept = 1%nat) /\
    Forall (publishes_well a) (threads w).

End RaceMore.

(** * Properties *)

Lemma scan_app {Q : Type} (delta : Q -> event -> option Q) (q : Q) (t1 t2 : list event) :
  scan delta q (t1 ++ t2) =
  match scan delta q t1 with
  | Some q1 => scan delta q1 t2
  | None => None
  end.
Proof.
  revert q. induction t1 as [|e t1 IH]; intros q; simpl; [reflexivity|].
  destruct (delta q e); [apply IH | reflexivity].
Qed.

Section MonitorRules.
Context {RAND_POOL OS : Type} `{RandLocal RAND_POOL} `{Windows OS}.
Context {Q : Type} (delta : Q -> event -> option Q) (qret : Q).
Abbreviation prog := (@M RAND_POOL OS).
Abbreviation follows := (@obeys RAND_POOL OS _ _ delta).

Lemma obeys_ret {A} (q : Q) (a : A) (post : A -> Q) :
  post a = q -> follows q (ret a) post qret.
Proof. intros E s. simpl. by rewrite E. Qed.

Lemma obeys_return {A} (v : Z) (post : A -> Q) :
  follows qret (return_ v) post qret.
Proof. intros s. reflexivity. Qed.

Lemma obeys_bind {A B} (q : Q) (m : prog A) (k : A -> prog B) (mid : A -> Q) (post : B -> Q) :
  follows q m mid qret ->
  (forall a, follows (mid a) (k a) post qret) ->
  follows q (bind m k) post qret.
Proof.
  intros Hm Hk s. unfold bind. specialize (Hm s).
  destruct (m s) as [[[a|v] s1] t1]; [|exact Hm].
  specialize (Hk a s1). destruct (k a s1) as [[[b|v] s2] t2];
    rewrite scan_app, Hm; exact Hk.
Qed.

Lemma obeys_assoc {A B C} (q : Q) (m : prog A) (f : A -> prog B) (k : B -> prog C)
    (post : C -> Q) :
  follows q (bind m (fun a => bind (f a) k)) post qret ->
  follows q (bind (bind m f) k) post qret.
Proof.
  intros Hm s. specialize (Hm s). unfold bind in *.
  destruct (m s) as [[[a|v] s1] t1]; [|exact Hm].
  destruct (f a s1) as [[[b|v] s2] t2]; [|exact Hm].
  destruct (k b s2) as [[[c|v] s3] t3]; by rewrite <- app_assoc.
Qed.

Lemma obeys_ret_bind {A B} (q : Q) (a : A) (k : A -> prog B) (post : B -> Q) :
  follows q (k a) post qret ->
  follows q (bind (ret a) k) post qret.
Proof.
  intros Hk s. specialize (Hk s). unfold bind, ret.
  by destruct (k a s) as [[[b|v] s2] t2].
Qed.

Lemma obeys_on_pool {A} (q : Q) (f : RAND_POOL -> A * RAND_POOL) (ev : A -> event)
    (post : A -> Q) :
  (forall a, delta q (ev a) = Some (post a)) ->
  follows q (on_pool f ev) post qret.
Proof.
  intros E s. unfold on_pool. destruct (f (pool s)) as [a p]. simpl. by rewrite E.
Qed.

Lemma obeys_on_os {A} (q : Q) (f : OS -> A * OS) (ev : A -> event) (post : A -> Q) :
  (forall a, delta q (ev a) = Some (post a)) ->
  follows q (on_os f ev) post qret.
Proof.
  intros E s. unfold on_os. destruct (f (os s)) as [a o]. simpl. by rewrite E.
Qed.

Lemma obeys_BCryptGenRandom (q : Q) (pfn hAlg buffer cb flags : Z) (post : Z -> Q) :
  (forall status, delta q (Ev_BCryptGenRandom pfn (to_ULONG cb) flags status)
                  = Some (post status)) ->
  follows q (do_BCryptGenRandom pfn hAlg buffer cb flags) post qret.
Proof.
  intros E s. unfold do_BCryptGenRandom.
  destruct (call_BCryptGenRandom _ _ _ _ _) as [[status written] o]. simpl. by rewrite E.
Qed.

Lemma obeys_CryptGenRandom (q : Q) (hProv len buffer : Z) (post : Z -> Q) :
  (forall r, delta q (Ev_CryptGenRandom hProv (to_ULONG len) r) = Some (post r)) ->
  follows q (do_CryptGenRandom hProv len buffer) post qret.
Proof.
  intros E s. unfold do_CryptGenRandom.
  destruct (CryptGenRandom _ _ _) as [[r written] o]. simpl. by rewrite E.
Qed.

Lemma obeys_exchange (q : Q) (exchange comparand : Z) :
  follows q (InterlockedCompareExchangePointer exchange comparand)
        (fun _ => q) qret.
Proof. intros s. reflexivity. Qed.

Lemma obeys_return_if_positive (entropy_available : Z) :
  follows qret (return_if_positive entropy_available)
        (fun _ => qret) qret.
Proof. intros s. unfold return_if_positive. by destruct (0 <? entropy_available). Qed.

Lemma obeys_call (q : Q) (m : prog Z) (s : state RAND_POOL OS) :
  follows q m (fun _ => qret) qret ->
  scan delta q (call m s).2 = Some qret.
Proof.
  intros Hm. specialize (Hm s). unfold call.
  by destruct (m s) as [[[a|v] s1] t].
Qed.

(** A monitor that ignores the events of the lazy binding stays where it
    is while the binding is resolved. *)
Lemma obeys_bind_BCryptGenRandom (a : arch) (q : Q) :
  (forall name flags r, delta q (Ev_LoadLibraryExA name flags r) = Some q) ->
  (forall hm name r, delta q (Ev_GetProcAddress hm name r) = Some q) ->
  (forall hm, delta q (Ev_FreeLibrary hm) = Some q) ->
  follows q (bind_BCryptGenRandom a) (fun _ => q) qret.
Proof.
  intros HL HG HF. unfold bind_BCryptGenRandom.
  eapply obeys_bind; [apply obeys_exchange|]. intros pfn.
  destruct (pfn =? _); [|by apply obeys_ret].
  eapply obeys_bind; [apply obeys_on_os with (post := fun _ => q); intros; apply HL|].
  intros hm.
  eapply obeys_bind with (mid := fun _ => q).
  { destruct (negb (hm =? NULL)); [|by apply obeys_ret].
    apply obeys_on_os. intros; apply HG. }
  intros pfn1. eapply obeys_bind; [apply obeys_exchange|]. intros pfn2.
  destruct (negb (pfn2 =? _)); [|by apply obeys_ret].
  eapply obeys_bind with (mid := fun _ => q); [|intros; by apply obeys_ret].
  destruct (negb (hm =? NULL)); [|by apply obeys_ret].
  apply obeys_on_os. intros; apply HF.
Qed.

(** The function as a whole obeys a monitor that ignores the hardware
    sources, the binding and the final probe, once each of its three
    attempts does. *)
Lemma obeys_acquire_entropy (cfg : build) :
  (forall r, delta qret (Ev_from_tsc r) = Some qret) ->
  (forall r, delta qret (Ev_from_cpu r) = Some qret) ->
  (forall name flags r, delta qret (Ev_LoadLibraryExA name flags r) = Some qret) ->
  (forall hm name r, delta qret (Ev_GetProcAddress hm name r) = Some qret) ->
  (forall hm, delta qret (Ev_FreeLibrary hm) = Some qret) ->
  (forall r, delta qret (Ev_entropy_available r) = Some qret) ->
  (forall pfn ea,
      follows qret (attempt_BCryptGenRandom (target cfg) pfn ea) (fun _ => qret) qret) ->
  (forall provider provtype ea,
      follows qret (attempt_CryptoAPI (target cfg) provider provtype ea)
            (fun _ => qret) qret) ->
  forall s, scan delta qret (rand_pool_acquire_entropy cfg s).2 = Some qret.
Proof.
  intros Htsc Hcpu HL HG HF Hprobe HB HC s.
  unfold rand_pool_acquire_entropy. apply obeys_call.
  unfold rand_pool_acquire_entropy_body.
  eapply obeys_bind with (mid := fun _ => qret).
  { destruct (OPENSSL_RAND_SEED_RDTSC cfg); [|by apply obeys_ret].
    eapply obeys_bind with (mid := fun _ => qret);
      [by apply obeys_on_pool | intros; apply obeys_return_if_positive]. }
  intros ea1. eapply obeys_bind with (mid := fun _ => qret).
  { destruct (OPENSSL_RAND_SEED_RDCPU cfg); [|by apply obeys_ret].
    eapply obeys_bind with (mid := fun _ => qret);
      [by apply obeys_on_pool | intros; apply obeys_return_if_positive]. }
  intros ea2. eapply obeys_bind with (mid := fun _ => qret).
  { destruct (USE_BCRYPTGENRANDOM cfg); [|by apply obeys_ret].
    eapply obeys_bind; [by apply obeys_bind_BCryptGenRandom|]. intros pfn. simpl.
    destruct (negb (pfn =? NULL)); [|by apply obeys_ret].
    eapply obeys_bind with (mid := fun _ => qret);
      [apply HB | intros; apply obeys_return_if_positive]. }
  intros ea3. eapply obeys_bind with (mid := fun _ => qret); [apply HC|].
  intros ea4. eapply obeys_bind; [apply obeys_return_if_positive|]. simpl.
  intros ea4'. eapply obeys_bind with (mid := fun _ => qret); [apply HC|].
  intros ea5. eapply obeys_bind; [apply obeys_return_if_positive|]. simpl.
  intros ea5'. eapply obeys_bind with (mid := fun _ => qret); [by apply obeys_on_pool|].
  intros v. apply obeys_return.
Qed.
End MonitorRules.

Section Attempts.
Context {RAND_POOL OS : Type} `{RandLocal RAND_POOL} `{Windows OS}.
Abbreviation prog := (@M RAND_POOL OS).

(** *** The reservation protocol *)

Lemma reservation_protocol_commit (a : arch) (len : Z) :
  reservation_protocol a true (Ev_add_end len (size_t_mul a 8 len)) = Some false.
Proof. simpl. by rewrite Z.eqb_refl. Qed.

Lemma attempt_BCryptGenRandom_reservation (a : arch) (pfn ea : Z) :
  @obeys RAND_POOL OS _ _ (reservation_protocol a) false
         (attempt_BCryptGenRandom a pfn ea) (fun _ => false) false.
Proof.
  unfold attempt_BCryptGenRandom.
  eapply obeys_bind with (mid := fun _ => false); [by apply obeys_on_pool|].
  intros n.
  eapply obeys_bind with (mid := fun buffer => negb (buffer =? NULL));
    [by apply obeys_on_pool|].
  intros buffer. destruct (buffer =? NULL); simpl; [by apply obeys_ret|].
  eapply obeys_bind with (mid := fun _ => true); [by apply obeys_BCryptGenRandom|].
  intros status.
  eapply obeys_bind with (mid := fun _ => false); [|intros; by apply obeys_on_pool].
  apply obeys_on_pool. intros _. apply reservation_protocol_commit.
Qed.

Lemma attempt_CryptoAPI_reservation (a : arch) (provider : option string)
    (provtype ea : Z) :
  @obeys RAND_POOL OS _ _ (reservation_protocol a) false
         (attempt_CryptoAPI a provider provtype ea) (fun _ => false) false.
Proof.
  unfold attempt_CryptoAPI.
  eapply obeys_bind with (mid := fun _ => false); [by apply obeys_on_pool|].
  intros n.
  eapply obeys_bind with (mid := fun buffer => negb (buffer =? NULL));
    [by apply obeys_on_pool|].
  intros buffer. destruct (buffer =? NULL); simpl; [by apply obeys_ret|].
  eapply obeys_bind with (mid := fun _ => true); [by apply obeys_on_os|].
  intros [r hProv]. simpl.
  eapply obeys_bind with (mid := fun _ => true).
  { destruct (negb (r =? 0)); [|by apply obeys_ret].
    eapply obeys_bind with (mid := fun _ => true); [by apply obeys_CryptGenRandom|].
    intros filled.
    eapply obeys_bind with (mid := fun _ => true);
      [by apply obeys_on_os | intros; by apply obeys_ret]. }
  intros bytes.
  eapply obeys_bind with (mid := fun _ => false); [|intros; by apply obeys_on_pool].
  apply obeys_on_pool. intros _. apply reservation_protocol_commit.
Qed.

(** *** All or nothing *)

Lemma attempt_BCryptGenRandom_all_or_nothing (a : arch) (pfn ea : Z) :
  @obeys RAND_POOL OS _ _ all_or_nothing Idle
         (attempt_BCryptGenRandom a pfn ea) (fun _ => Idle) Idle.
Proof.
  unfold attempt_BCryptGenRandom.
  eapply obeys_bind with (mid := fun _ => Idle); [by apply obeys_on_pool|].
  intros n.
  eapply obeys_bind
    with (mid := fun buffer => if buffer =? NULL then Idle else Filling n false);
    [by apply obeys_on_pool|].
  intros buffer. destruct (buffer =? NULL); simpl; [by apply obeys_ret|].
  eapply obeys_bind
    with (mid := fun status => Filling n (status =? STATUS_SUCCESS)).
  { apply obeys_BCryptGenRandom. intros status. simpl. by rewrite Z.eqb_refl. }
  intros status.
  eapply obeys_bind with (mid := fun _ => Idle); [|intros; by apply obeys_on_pool].
  apply obeys_on_pool. intros _. simpl.
  destruct (status =? STATUS_SUCCESS); by rewrite Z.eqb_refl.
Qed.

Lemma attempt_CryptoAPI_all_or_nothing (a : arch) (provider : option string)
    (provtype ea : Z) :
  @obeys RAND_POOL OS _ _ all_or_nothing Idle
         (attempt_CryptoAPI a provider provtype ea) (fun _ => Idle) Idle.
Proof.
  unfold attempt_CryptoAPI.
  eapply obeys_bind with (mid := fun _ => Idle); [by apply obeys_on_pool|].
  intros n.
  eapply obeys_bind
    with (mid := fun buffer => if buffer =? NULL then Idle else Filling n false);
    [by apply obeys_on_pool|].
  intros buffer. destruct (buffer =? NULL); simpl; [by apply obeys_ret|].
  eapply obeys_bind with (mid := fun _ => Filling n false); [by apply obeys_on_os|].
  intros [r hProv]. simpl. destruct (negb (r =? 0)).
  - apply obeys_assoc.
    eapply obeys_bind with (mid := fun filled => Filling n (negb (filled =? 0))).
    { apply obeys_CryptGenRandom. intros filled. simpl. by rewrite Z.eqb_refl. }
    intros filled. apply obeys_assoc.
    eapply obeys_bind
      with (mid := fun _ => Filling n (negb (filled =? 0))); [by apply obeys_on_os|].
    intros _. apply obeys_ret_bind.
    eapply obeys_bind with (mid := fun _ => Idle); [|intros; by apply obeys_on_pool].
    apply obeys_on_pool. intros _. simpl.
    destruct (negb (filled =? 0)); by rewrite Z.eqb_refl.
  - apply obeys_ret_bind.
    eapply obeys_bind with (mid := fun _ => Idle); [|intros; by apply obeys_on_pool].
    by apply obeys_on_pool.
Qed.

(** *** Provider handles *)

Lemma attempt_BCryptGenRandom_custody (a : arch) (pfn ea : Z) :
  @obeys RAND_POOL OS _ _ handle_custody (Custody None None)
         (attempt_BCryptGenRandom a pfn ea) (fun _ => Custody None None)
         (Custody None None).
Proof.
  unfold attempt_BCryptGenRandom.
  eapply obeys_bind with (mid := fun _ => Custody None None); [by apply obeys_on_pool|].
  intros n.
  eapply obeys_bind with (mid := fun _ => Custody None None); [by apply obeys_on_pool|].
  intros buffer. destruct (negb (buffer =? NULL)); [|by apply obeys_ret].
  eapply obeys_bind with (mid := fun _ => Custody None None);
    [by apply obeys_BCryptGenRandom|].
  intros status.
  eapply obeys_bind with (mid := fun _ => Custody None None);
    [by apply obeys_on_pool | intros; by apply obeys_on_pool].
Qed.

Lemma attempt_CryptoAPI_custody (a : arch) (provider : option string)
    (provtype ea : Z) :
  @obeys RAND_POOL OS _ _ handle_custody (Custody None None)
         (attempt_CryptoAPI a provider provtype ea) (fun _ => Custody None None)
         (Custody None None).
Proof.
  unfold attempt_CryptoAPI.
  eapply obeys_bind with (mid := fun _ => Custody None None); [by apply obeys_on_pool|].
  intros n.
  eapply obeys_bind with (mid := fun _ => Custody None None); [by apply obeys_on_pool|].
  intros buffer. destruct (negb (buffer =? NULL)); [|by apply obeys_ret].
  eapply obeys_bind
    with (mid := fun acquired : Z * Z =>
                   Custody (if acquired.1 =? 0 then None else Some acquired.2)
                           (Some false));
    [by apply obeys_on_os|].
  intros [r hProv]. simpl. destruct (r =? 0); simpl.
  - apply obeys_ret_bind.
    eapply obeys_bind with (mid := fun _ => Custody None None);
      [by apply obeys_on_pool | intros; by apply obeys_on_pool].
  - apply obeys_assoc.
    eapply obeys_bind
      with (mid := fun filled => Custody (Some hProv) (Some (negb (filled =? 0)))).
    { apply obeys_CryptGenRandom. intros filled. simpl. by rewrite Z.eqb_refl. }
    intros filled. apply obeys_assoc.
    eapply obeys_bind
      with (mid := fun _ => Custody None (Some (negb (filled =? 0)))).
    { apply obeys_on_os. intros _. simpl. by rewrite Z.eqb_refl. }
    intros _. apply obeys_ret_bind.
    eapply obeys_bind with (mid := fun _ => Custody None None);
      [|intros; by apply obeys_on_pool].
    apply obeys_on_pool. intros _. simpl.
    destruct (negb (filled =? 0)); [done|]. by rewrite Z.eqb_refl.
Qed.
End Attempts.

(** ** The order of the sources *)

Section Order.
Context {RAND_POOL OS : Type} `{RandLocal RAND_POOL} `{Windows OS}.
Abbreviation prog := (@M RAND_POOL OS).

Lemma alike_on_pool (f : RAND_POOL -> Z * RAND_POOL) (ev : Z -> event) :
  @alike RAND_POOL OS (on_pool f ev) (on_pool f ev).
Proof.
  intros s. unfold on_pool. destruct (f (pool s)) as [v p].
  exists v, v. eexists _, _. auto.
Qed.

Lemma bind_BCryptGenRandom_falls_through (a : arch) :
  @falls_through RAND_POOL OS _ (bind_BCryptGenRandom a).
Proof.
  intros s. unfold bind_BCryptGenRandom, bind, InterlockedCompareExchangePointer,
    do_LoadLibraryExA, do_GetProcAddress, do_FreeLibrary, on_os, ret. simpl.
  destruct (s_pfnBCryptGenRandom s =? PFN_BCryptGenRandom_NOTSET a); [|eauto].
  destruct (LoadLibraryExA _ _ _ _) as [hm o1]. simpl.
  destruct (negb (hm =? NULL)); simpl.
  - destruct (GetProcAddress _ _ _) as [pfn o2]. simpl.
    destruct (negb (_ =? _)); simpl; [|eauto].
    destruct (FreeLibrary _ _) as [r o3]. simpl. eauto.
  - destruct (negb (_ =? _)); simpl; eauto.
Qed.

Lemma attempt_BCryptGenRandom_alike (a : arch) (pfn ea : Z) :
  (0 <? ea) = false ->
  @alike RAND_POOL OS (attempt_BCryptGenRandom a pfn ea) (attempt_BCryptGenRandom a pfn 0).
Proof.
  intros Hea s. unfold attempt_BCryptGenRandom, bind, do_bytes_needed, do_add_begin,
    do_BCryptGenRandom, do_add_end, do_entropy_available, on_pool, ret. simpl.
  destruct (rand_pool_bytes_needed _ _) as [n p1]. simpl.
  destruct (rand_pool_add_begin _ _) as [buffer p2]. simpl.
  destruct (negb (buffer =? NULL)); simpl.
  - destruct (call_BCryptGenRandom _ _ _ _ _) as [[status written] o1]. simpl.
    destruct (rand_pool_add_end _ _ _) as [r p3]. simpl.
    destruct (rand_pool_entropy_available _) as [v p4]. simpl.
    exists v, v. eexists _, _. auto.
  - exists ea, 0. eexists _, _. auto.
Qed.

Lemma attempt_CryptoAPI_alike (a : arch) (provider : option string) (provtype ea : Z) :
  (0 <? ea) = false ->
  @alike RAND_POOL OS (attempt_CryptoAPI a provider provtype ea)
         (attempt_CryptoAPI a provider provtype 0).
Proof.
  intros Hea s. unfold attempt_CryptoAPI, bind, do_bytes_needed, do_add_begin,
    do_CryptAcquireContextW, do_CryptGenRandom, do_CryptReleaseContext,
    do_add_end, do_entropy_available, on_pool, on_os, ret. simpl.
  destruct (rand_pool_bytes_needed _ _) as [n p1]. simpl.
  destruct (rand_pool_add_begin _ _) as [buffer p2]. simpl.
  destruct (negb (buffer =? NULL)); simpl.
  - destruct (CryptAcquireContextW _ _ _ _ _) as [[r hProv] o1]. simpl.
    destruct (negb (r =? 0)); simpl.
    + destruct (CryptGenRandom _ _ _) as [[filled written] o2]. simpl.
      destruct (CryptReleaseContext _ _ _) as [r1 o3]. simpl.
      destruct (rand_pool_add_end _ _ _) as [r2 p3]. simpl.
      destruct (rand_pool_entropy_available _) as [v p4]. simpl.
      exists v, v. eexists _, _. auto.
    + destruct (rand_pool_add_end _ _ _) as [r2 p3]. simpl.
      destruct (rand_pool_entropy_available _) as [v p4]. simpl.
      exists v, v. eexists _, _. auto.
  - exists ea, 0. eexists _, _. auto.
Qed.

(** Lines 78-111 against the attempt of the BCrypt source. *)
Lemma bcrypt_block_alike (cfg : build) (ea : Z) :
  (0 <? ea) = false ->
  @alike RAND_POOL OS
    (bind (bind_BCryptGenRandom (target cfg)) (fun pfn =>
       if negb (pfn =? NULL)
       then attempt_BCryptGenRandom (target cfg) pfn ea
       else ret ea))
    (attempt cfg BCryptBinding).
Proof.
  intros Hea s. unfold attempt, bind.
  destruct (bind_BCryptGenRandom_falls_through (target cfg) s) as (pfn & s1 & t1 & ->).
  destruct (negb (pfn =? NULL)).
  - destruct (attempt_BCryptGenRandom_alike (target cfg) pfn ea Hea s1)
      as (v & w & s2 & t2 & -> & -> & Hvw).
    exists v, w. eexists _, _. auto.
  - exists ea, 0. eexists _, _. auto.
Qed.

(** One link of the chain: an attempt, the test on what it left in
    [entropy_available], and the rest of the function. *)
Lemma chain_link (cfg : build) (src : source) (rest : list source)
    (p : prog Z) (k : Z -> prog Z) :
  alike p (attempt cfg src) ->
  (forall e s1, (0 <? e) = false -> call (k e) s1 = try_in_order cfg rest s1) ->
  forall s,
    call (bind p (fun e => bind (return_if_positive e) k)) s
    = try_in_order cfg (src :: rest) s.
Proof.
  intros Hp Hk s. simpl. unfold call at 1 2, bind.
  destruct (Hp s) as (v & w & s1 & t1 & -> & -> & Hvw).
  unfold return_if_positive.
  destruct Hvw as [<- | [Hv Hw]].
  - destruct (0 <? v) eqn:Hv; simpl.
    + by rewrite app_nil_r.
    + specialize (Hk v s1 Hv). unfold call in Hk.
      destruct (k v s1) as [[[b|b] s2] t2]; rewrite <- Hk; reflexivity.
  - rewrite Hv, Hw. simpl.
    specialize (Hk v s1 Hv). unfold call in Hk.
    destruct (k v s1) as [[[b|b] s2] t2]; rewrite <- Hk; reflexivity.
Qed.

Lemma call_bind_assoc {A B} (m : prog A) (f : A -> prog B) (k : B -> prog Z)
    (s : state RAND_POOL OS) :
  call (bind (bind m f) k) s = call (bind m (fun a => bind (f a) k)) s.
Proof.
  unfold call, bind.
  destruct (m s) as [[[a|v] s1] t1]; [|reflexivity].
  destruct (f a s1) as [[[b|v] s2] t2]; [|reflexivity].
  destruct (k b s2) as [[[c|v] s3] t3]; by rewrite <- app_assoc.
Qed.

Lemma call_bind_ret {A} (a : A) (k : A -> prog Z) (s : state RAND_POOL OS) :
  call (bind (ret a) k) s = call (k a) s.
Proof. unfold call, bind, ret. by destruct (k a s) as [[[b|v] s2] t2]. Qed.

(** A source that the build may or may not contain. *)
Lemma chain_optional (cfg : build) (flag : bool) (src : source) (rest : list source)
    (p : prog Z) (k : Z -> prog Z) (ea : Z) :
  alike p (attempt cfg src) ->
  (0 <? ea) = false ->
  (forall e s1, (0 <? e) = false -> call (k e) s1 = try_in_order cfg rest s1) ->
  forall s,
    call (bind (if flag then bind p return_if_positive else ret ea) k) s
    = try_in_order cfg (if flag then src :: rest else rest) s.
Proof.
  intros Hp Hea Hk s. destruct flag.
  - rewrite call_bind_assoc. by apply chain_link.
  - rewrite call_bind_ret. by apply Hk.
Qed.

(** Lines 78-111, where the test on [entropy_available] sits inside the
    test on the binding. *)
Lemma chain_bcrypt (cfg : build) (flag : bool) (rest : list source)
    (k : Z -> prog Z) (ea : Z) :
  (0 <? ea) = false ->
  (forall e s1, (0 <? e) = false -> call (k e) s1 = try_in_order cfg rest s1) ->
  forall s,
    call (bind (if flag then
                  bind (bind_BCryptGenRandom (target cfg)) (fun pfn =>
                    if negb (pfn =? NULL)
                    then bind (attempt_BCryptGenRandom (target cfg) pfn ea)
                              return_if_positive
                    else ret ea)
                else ret ea) k) s
    = try_in_order cfg (if flag then BCryptBinding :: rest else rest) s.
Proof.
  intros Hea Hk s. destruct flag; [|rewrite call_bind_ret; by apply Hk].
  rewrite <- (chain_link cfg BCryptBinding rest _ k (bcrypt_block_alike cfg ea Hea) Hk s).
  unfold call, bind.
  destruct (bind_BCryptGenRandom_falls_through (target cfg) s) as (pfn & s1 & t1 & ->).
  destruct (negb (pfn =? NULL)).
  - destruct (attempt_BCryptGenRandom _ _ _ s1) as [[[e|v] s2] t2]; [|reflexivity].
    destruct (return_if_positive e s2) as [[[e'|v] s3] t3]; [|by rewrite <- !app_assoc].
    destruct (k e' s3) as [[[b|v] s4] t4]; by rewrite <- !app_assoc.
  - unfold return_if_positive, ret. rewrite Hea. simpl.
    destruct (k ea s1) as [[[b|v] s4] t4]; reflexivity.
Qed.

(** C2.  [rand_pool_acquire_entropy] tries the sources the build contains in
    the fixed order timing jitter, CPU instruction, BCrypt binding,
    CryptoAPI RSA_FULL provider, Intel provider: it returns at once, with
    no later source attempted, as soon as the entropy it holds after a
    source's attempt is positive; when a source has left it at zero the next
    source is attempted; after the last one it returns what the pool
    reports. *)
Theorem acquire_entropy_in_priority_order (cfg : build) (s : state RAND_POOL OS) :
  rand_pool_acquire_entropy cfg s
  = try_in_order cfg (List.filter (compiled_in cfg) priority_order) s.
Proof.
  unfold rand_pool_acquire_entropy, rand_pool_acquire_entropy_body.
  cbn [List.filter priority_order compiled_in].
  revert s. apply chain_optional; [apply alike_on_pool | reflexivity |].
  intros ea1 s1 H1. revert s1.
  apply chain_optional; [apply alike_on_pool | exact H1 |].
  intros ea2 s2 H2. revert s2.
  apply chain_bcrypt; [exact H2|].
  intros ea3 s3 H3. revert s3.
  apply chain_link; [by apply attempt_CryptoAPI_alike|].
  intros ea4 s4 H4. revert s4.
  apply chain_link; [by apply attempt_CryptoAPI_alike|].
  intros ea5 s5 H5. simpl.
  unfold call, bind, do_entropy_available, on_pool, return_.
  by destruct (rand_pool_entropy_available (pool s5)).
Qed.
End Order.

(** ** The lazy binding, one thread *)

Section Binding.
Context {RAND_POOL OS : Type} `{RandLocal RAND_POOL} `{Windows OS}.
Abbreviation prog := (@M RAND_POOL OS).
Abbreviation silent := (@satisfies RAND_POOL OS _ quiet).

Lemma quiet_ret {A} (a : A) : silent (ret a).
Proof. intros s. by split. Qed.

Lemma quiet_return {A} (v : Z) : silent (@return_ _ _ A v).
Proof. intros s. by split. Qed.

Lemma quiet_bind {A B} (m : prog A) (k : A -> prog B) :
  silent m -> (forall a, silent (k a)) -> silent (bind m k).
Proof.
  intros Hm Hk s. unfold bind. specialize (Hm s).
  destruct (m s) as [[[a|v] s1] t1]; [|exact Hm].
  specialize (Hk a s1). destruct (k a s1) as [[r s2] t2].
  destruct Hm as [E1 F1], Hk as [E2 F2]. split; [congruence|].
  by apply Forall_app.
Qed.

Lemma quiet_on_pool {A} (f : RAND_POOL -> A * RAND_POOL) (ev : A -> event) :
  (forall a, is_lookup (ev a) = false) -> silent (on_pool f ev).
Proof.
  intros Hev s. unfold on_pool. destruct (f (pool s)) as [a p].
  split; [reflexivity|]. by repeat constructor.
Qed.

Lemma quiet_on_os {A} (f : OS -> A * OS) (ev : A -> event) :
  (forall a, is_lookup (ev a) = false) -> silent (on_os f ev).
Proof.
  intros Hev s. unfold on_os. destruct (f (os s)) as [a o].
  split; [reflexivity|]. by repeat constructor.
Qed.

Lemma quiet_return_if_positive (ea : Z) : silent (return_if_positive ea).
Proof. unfold return_if_positive. destruct (0 <? ea); [apply quiet_return | apply quiet_ret]. Qed.

Lemma quiet_attempt_BCryptGenRandom (a : arch) (pfn ea : Z) :
  silent (attempt_BCryptGenRandom a pfn ea).
Proof.
  unfold attempt_BCryptGenRandom.
  apply quiet_bind; [by apply quiet_on_pool|]. intros n.
  apply quiet_bind; [by apply quiet_on_pool|]. intros buffer.
  destruct (negb (buffer =? NULL)); [|apply quiet_ret].
  apply quiet_bind.
  { intros s. unfold do_BCryptGenRandom.
    destruct (call_BCryptGenRandom _ _ _ _ _) as [[status written] o].
    split; [reflexivity|]. by repeat constructor. }
  intros status.
  apply quiet_bind; [by apply quiet_on_pool | intros; by apply quiet_on_pool].
Qed.

Lemma quiet_attempt_CryptoAPI (a : arch) (provider : option string) (provtype ea : Z) :
  silent (attempt_CryptoAPI a provider provtype ea).
Proof.
  unfold attempt_CryptoAPI.
  apply quiet_bind; [by apply quiet_on_pool|]. intros n.
  apply quiet_bind; [by apply quiet_on_pool|]. intros buffer.
  destruct (negb (buffer =? NULL)); [|apply quiet_ret].
  apply quiet_bind; [by apply quiet_on_os|]. intros [r hProv]. simpl.
  apply quiet_bind.
  { destruct (negb (r =? 0)); [|apply quiet_ret].
    apply quiet_bind.
    { intros s. unfold do_CryptGenRandom.
      destruct (CryptGenRandom _ _ _) as [[filled written] o].
      split; [reflexivity|]. by repeat constructor. }
    intros filled.
    apply quiet_bind; [by apply quiet_on_os | intros; apply quiet_ret]. }
  intros bytes.
  apply quiet_bind; [by apply quiet_on_pool | intros; by apply quiet_on_pool].
Qed.

Lemma NOTSET_not_NULL (a : arch) : PFN_BCryptGenRandom_NOTSET a <> NULL.
Proof. by destruct a. Qed.

Lemma quiet_settles (a : arch) (s s1 : state RAND_POOL OS) (t : list event) :
  quiet s s1 t -> settles a s s1 t.
Proof.
  intros [E F]. split; [done|].
  assert (forall P : event -> bool, (forall e, P e = true -> is_lookup e = true) ->
            Exists (fun e => P e = true) t -> False) as No.
  { intros P HP Hex. apply Exists_exists in Hex as (e & Hin & He).
    rewrite Forall_forall in F. specialize (F e Hin). apply HP in He. congruence. }
  split.
  - intros Hex. exfalso. apply (No failed_lookup); [|done].
    by intros [].
  - intros _ Hex. exfalso. by apply (No is_lookup).
Qed.

Lemma settles_then_quiet (a : arch) (s s1 s2 : state RAND_POOL OS) (t1 t2 : list event) :
  settles a s s1 t1 -> quiet s1 s2 t2 -> settles a s s2 (t1 ++ t2).
Proof.
  intros (S1 & S2 & S3) [E F].
  assert (forall P : event -> bool, (forall e, P e = true -> is_lookup e = true) ->
            Exists (fun e => P e = true) (t1 ++ t2) -> Exists (fun e => P e = true) t1)
    as Left.
  { intros P HP Hex. apply Exists_app in Hex as [Hex|Hex]; [done|]. exfalso.
    apply Exists_exists in Hex as (e & Hin & He).
    rewrite Forall_forall in F. specialize (F e Hin). apply HP in He. congruence. }
  split; [|split].
  - intros Hs. destruct (S1 Hs) as [E1 F1]. split; [congruence | by apply Forall_app].
  - intros Hex. rewrite E. apply S2, Left; [|done]. by intros [].
  - intros Hpl Hex. rewrite E. apply Forall_app in Hpl as [Hpl _].
    apply S3; [done|]. by apply (Left is_lookup).
Qed.

Lemma quiet_then_settles (a : arch) (s s1 s2 : state RAND_POOL OS) (t1 t2 : list event) :
  quiet s s1 t1 -> settles a s1 s2 t2 -> settles a s s2 (t1 ++ t2).
Proof.
  intros [E F] (S1 & S2 & S3).
  assert (forall P : event -> bool, (forall e, P e = true -> is_lookup e = true) ->
            Exists (fun e => P e = true) (t1 ++ t2) -> Exists (fun e => P e = true) t2)
    as Right.
  { intros P HP Hex. apply Exists_app in Hex as [Hex|Hex]; [|done]. exfalso.
    apply Exists_exists in Hex as (e & Hin & He).
    rewrite Forall_forall in F. specialize (F e Hin). apply HP in He. congruence. }
  split; [|split].
  - rewrite <- E. intros Hs. destruct (S1 Hs) as [E1 F1]. split; [done | by apply Forall_app].
  - intros Hex. apply S2, Right; [|done]. by intros [].
  - intros Hpl Hex. apply Forall_app in Hpl as [_ Hpl].
    apply S3; [done|]. by apply (Right is_lookup).
Qed.

Lemma settles_bind_quiet {A B} (a : arch) (m : prog A) (k : A -> prog B) :
  satisfies (settles a) m -> (forall x, silent (k x)) -> satisfies (settles a) (bind m k).
Proof.
  intros Hm Hk s. unfold bind. specialize (Hm s).
  destruct (m s) as [[[x|v] s1] t1]; [|exact Hm].
  specialize (Hk x s1). destruct (k x s1) as [[r s2] t2].
  by eapply settles_then_quiet.
Qed.

Lemma quiet_bind_settles {A B} (a : arch) (m : prog A) (k : A -> prog B) :
  silent m -> (forall x, satisfies (settles a) (k x)) -> satisfies (settles a) (bind m k).
Proof.
  intros Hm Hk s. unfold bind. specialize (Hm s).
  destruct (m s) as [[[x|v] s1] t1]; [|by apply quiet_settles].
  specialize (Hk x s1). destruct (k x s1) as [[r s2] t2].
  by eapply quiet_then_settles.
Qed.

Lemma quiet_is_settled {A} (a : arch) (m : prog A) :
  silent m -> satisfies (settles a) m.
Proof.
  intros Hm s. specialize (Hm s). destruct (m s) as [[r s1] t]. by apply quiet_settles.
Qed.
End Binding.

Section BindingClaim.
Context {RAND_POOL OS : Type} `{RandLocal RAND_POOL} `{Windows OS}.

Lemma bind_BCryptGenRandom_settles (a : arch) :
  @satisfies RAND_POOL OS _ (settles a) (bind_BCryptGenRandom a).
Proof.
  intros s. unfold bind_BCryptGenRandom, bind, InterlockedCompareExchangePointer,
    do_LoadLibraryExA, do_GetProcAddress, do_FreeLibrary, on_os, ret. simpl.
  assert ((if s_pfnBCryptGenRandom s =? 0 then 0 else s_pfnBCryptGenRandom s)
          = s_pfnBCryptGenRandom s) as Same.
  { destruct (Z.eqb_spec (s_pfnBCryptGenRandom s) 0); congruence. }
  destruct (Z.eqb_spec (s_pfnBCryptGenRandom s) (PFN_BCryptGenRandom_NOTSET a)) as [E|NE].
  2:{ apply quiet_settles. split; [exact Same | constructor]. }
  destruct (LoadLibraryExA _ _ _ _) as [hm o1]. simpl.
  destruct (Z.eqb_spec hm NULL) as [Hhm|Hhm]; simpl.
  - rewrite Same, E, Z.eqb_refl. simpl. split; [done|]. split; [done|].
    intros _ _. simpl. intros Bad. by apply (NOTSET_not_NULL a).
  - destruct (GetProcAddress _ _ _) as [pfn o2]. simpl.
    rewrite Same, E, Z.eqb_refl. simpl. split; [done|]. split.
    + intros Hex. apply Exists_cons in Hex as [Hex|Hex].
      { simpl in Hex. apply Z.eqb_eq in Hex. done. }
      apply Exists_cons in Hex as [Hex|Hex]; [|by apply Exists_nil in Hex].
      simpl in *. by apply Z.eqb_eq in Hex.
    + intros Hpl _. apply Forall_cons in Hpl as [_ Hpl].
      apply Forall_cons in Hpl as [Hpl _]. simpl in *.
      apply negb_true_iff, Z.eqb_neq in Hpl. done.
Qed.

(** C4.  The lazy binding is resolved at most once.  In every call of
    [rand_pool_acquire_entropy]: if the static has left the unresolved
    sentinel when the call starts, whether for a function or for [NULL], the
    call leaves it unchanged and performs no [LoadLibraryExA] and no
    [GetProcAddress]; if a lookup of the call fails, the static is [NULL]
    (unavailable) afterwards, which is such a resolved value; and whenever
    the call performs a lookup, the static is resolved afterwards, so that no
    later call looks up again. *)
Theorem binding_resolved_once (cfg : build) (s : state RAND_POOL OS) :
  match rand_pool_acquire_entropy cfg s with
  | (_, s1, t) =>
      (s_pfnBCryptGenRandom s <> PFN_BCryptGenRandom_NOTSET (target cfg) ->
       s_pfnBCryptGenRandom s1 = s_pfnBCryptGenRandom s /\
       Forall (fun e => is_lookup e = false) t) /\
      (Exists (fun e => failed_lookup e = true) t ->
       s_pfnBCryptGenRandom s1 = NULL) /\
      (Forall (fun e => plausible_answer (target cfg) e = true) t ->
       Exists (fun e => is_lookup e = true) t ->
       s_pfnBCryptGenRandom s1 <> PFN_BCryptGenRandom_NOTSET (target cfg))
  end.
Proof.
  assert (satisfies (settles (target cfg)) (rand_pool_acquire_entropy_body cfg)) as Hbody.
  { unfold rand_pool_acquire_entropy_body.
    apply quiet_bind_settles.
    { destruct (OPENSSL_RAND_SEED_RDTSC cfg); [|apply quiet_ret].
      apply quiet_bind; [by apply quiet_on_pool | apply quiet_return_if_positive]. }
    intros ea1. apply quiet_bind_settles.
    { destruct (OPENSSL_RAND_SEED_RDCPU cfg); [|apply quiet_ret].
      apply quiet_bind; [by apply quiet_on_pool | apply quiet_return_if_positive]. }
    intros ea2. apply settles_bind_quiet.
    { destruct (USE_BCRYPTGENRANDOM cfg); [|apply quiet_is_settled, quiet_ret].
      apply settles_bind_quiet; [apply bind_BCryptGenRandom_settles|].
      intros pfn. destruct (negb (pfn =? NULL)); [|apply quiet_ret].
      apply quiet_bind;
        [apply quiet_attempt_BCryptGenRandom | apply quiet_return_if_positive]. }
    intros ea3. apply quiet_bind; [apply quiet_attempt_CryptoAPI|].
    intros ea4. apply quiet_bind; [apply quiet_return_if_positive|].
    intros ea4'. apply quiet_bind; [apply quiet_attempt_CryptoAPI|].
    intros ea5. apply quiet_bind; [apply quiet_return_if_positive|].
    intros ea5'. apply quiet_bind; [by apply quiet_on_pool|].
    intros v. apply quiet_return. }
  specialize (Hbody s). unfold rand_pool_acquire_entropy, call.
  by destruct (rand_pool_acquire_entropy_body cfg s) as [[[v|v] s1] t].
Qed.
End BindingClaim.

(** ** What every attempt commits *)

Section Commits.
Context {RAND_POOL OS : Type} `{RandLocal RAND_POOL} `{Windows OS}.

(** C3.  All or nothing: in every run of [rand_pool_acquire_entropy], each
    attempt through the operating system commits either exactly the
    [bytes_needed] it reserved, which it does when the generator, asked for
    that count, reported success ([STATUS_SUCCESS] from [BCryptGenRandom],
    [TRUE] from [CryptGenRandom]), or exactly 0 bytes, on every other
    outcome; no other count is ever committed. *)
Theorem commits_all_or_nothing (cfg : build) (s : state RAND_POOL OS) :
  scan all_or_nothing Idle (rand_pool_acquire_entropy cfg s).2 = Some Idle.
Proof.
  apply obeys_acquire_entropy; try done.
  - intros. apply attempt_BCryptGenRandom_all_or_nothing.
  - intros. apply attempt_CryptoAPI_all_or_nothing.
Qed.

(** C6.  Provider handles: in every run of [rand_pool_acquire_entropy], for
    the RSA_FULL provider and for the Intel provider alike, a handle that
    [CryptAcquireContextW] handed out is given to [CryptReleaseContext]
    before the attempt commits and goes on, whether [CryptGenRandom]
    succeeded or not, and no handle is held when the function returns; an
    attempt whose acquisition or whose fill failed commits 0 bytes. *)
Theorem provider_handle_released (cfg : build) (s : state RAND_POOL OS) :
  scan handle_custody (Custody None None) (rand_pool_acquire_entropy cfg s).2
  = Some (Custody None None).
Proof.
  apply obeys_acquire_entropy; try done.
  - intros. apply attempt_BCryptGenRandom_custody.
  - intros. apply attempt_CryptoAPI_custody.
Qed.

(** C10.  Reservation and commit: in every run of
    [rand_pool_acquire_entropy], [rand_pool_add_end] is called exactly for
    the reservations in which [rand_pool_add_begin] returned a buffer; after
    a reservation that returned [NULL] neither the operating system is asked
    for bytes nor anything is committed; and every commit passes [8 * bytes],
    the product the code computes in [size_t], as its entropy argument,
    [bytes] being its length argument. *)
Theorem commit_iff_reserved (cfg : build) (s : state RAND_POOL OS) :
  scan (reservation_protocol (target cfg)) false (rand_pool_acquire_entropy cfg s).2
  = Some false.
Proof.
  apply obeys_acquire_entropy; try done.
  - intros. apply attempt_BCryptGenRandom_reservation.
  - intros. apply attempt_CryptoAPI_reservation.
Qed.
End Commits.

(** ** The nonce generators *)

Section Nonces.
Context {RAND_POOL OS : Type} `{RandLocal RAND_POOL} `{Windows OS}.

Lemma memset_zero_16 (stack : list byte) :
  memset stack 0 16 =
  [x00; x00; x00; x00; x00; x00; x00; x00; x00; x00; x00; x00; x00; x00; x00; x00]
  ++ drop 16 stack.
Proof. reflexivity. Qed.

(** The record of [rand_pool_add_nonce_data] as the pool receives it. *)
Lemma nonce_record (stack : list byte) (pid tid low high : Z) :
  take 16
    (store (store (store (memset stack 0 nonce_sizeof) nonce_pid (le_bytes 4 pid))
                  nonce_tid (le_bytes 4 tid))
           nonce_time (le_bytes 4 low ++ le_bytes 4 high))
  = le_bytes 4 pid ++ le_bytes 4 tid ++ le_bytes 4 low ++ le_bytes 4 high.
Proof.
  unfold nonce_sizeof, nonce_pid, nonce_tid, nonce_time.
  rewrite memset_zero_16. unfold store, le_bytes. reflexivity.
Qed.

(** The record of [rand_pool_add_additional_data] as the pool receives
    it: the four padding bytes are zero. *)
Lemma additional_record (stack : list byte) (tid quad : Z) :
  take 16
    (store (store (memset stack 0 additional_sizeof) additional_tid (le_bytes 4 tid))
           additional_time (le_bytes 8 quad))
  = le_bytes 4 tid ++ [x00; x00; x00; x00] ++ le_bytes 8 quad.
Proof.
  unfold additional_sizeof, additional_tid, additional_time.
  rewrite memset_zero_16. unfold store, le_bytes. reflexivity.
Qed.

Lemma rand_pool_add_nonce_data_unfold (stack : list byte) (s : state RAND_POOL OS) :
  rand_pool_add_nonce_data stack s =
  match GetCurrentProcessId (os s) with
  | (pid, o1) =>
      match GetCurrentThreadId o1 with
      | (tid, o2) =>
          match GetSystemTimeAsFileTime o2 with
          | (time, o3) =>
              let data := le_bytes 4 pid ++ le_bytes 4 tid
                          ++ le_bytes 4 time.1 ++ le_bytes 4 time.2 in
              match rand_pool_add (pool s) data 16 0 with
              | (added, p) =>
                  (added, State p o3 (s_pfnBCryptGenRandom s),
                   [Ev_GetCurrentProcessId pid; Ev_GetCurrentThreadId tid;
                    Ev_GetSystemTimeAsFileTime time.1 time.2; Ev_add data 16 0 added])
              end
          end
      end
  end.
Proof.
  unfold rand_pool_add_nonce_data, rand_pool_add_nonce_data_body, call, bind,
    do_GetCurrentProcessId, do_GetCurrentThreadId, do_GetSystemTimeAsFileTime,
    do_add, on_os, on_pool, return_.
  destruct (GetCurrentProcessId (os s)) as [pid o1]. cbv beta iota zeta.
  destruct (GetCurrentThreadId _) as [tid o2]. cbv beta iota zeta.
  destruct (GetSystemTimeAsFileTime _) as [time o3]. cbv beta iota zeta.
  change (Z.to_nat (Z.of_nat nonce_sizeof)) with 16%nat.
  rewrite nonce_record.
  change (Z.of_nat nonce_sizeof) with 16. cbn [pool os s_pfnBCryptGenRandom].
  by destruct (rand_pool_add _ _ _ _) as [added p].
Qed.

Lemma rand_pool_add_additional_data_unfold (stack : list byte) (s : state RAND_POOL OS) :
  rand_pool_add_additional_data stack s =
  match GetCurrentThreadId (os s) with
  | (tid, o1) =>
      match QueryPerformanceCounter o1 with
      | (counter, o2) =>
          let data := le_bytes 4 tid ++ [x00; x00; x00; x00] ++ le_bytes 8 counter.2 in
          match rand_pool_add (pool s) data 16 0 with
          | (added, p) =>
              (added, State p o2 (s_pfnBCryptGenRandom s),
               [Ev_GetCurrentThreadId tid;
                Ev_QueryPerformanceCounter counter.1 counter.2; Ev_add data 16 0 added])
          end
      end
  end.
Proof.
  unfold rand_pool_add_additional_data, rand_pool_add_additional_data_body, call, bind,
    do_GetCurrentThreadId, do_QueryPerformanceCounter, do_add, on_os, on_pool, return_.
  destruct (GetCurrentThreadId (os s)) as [tid o1]. cbv beta iota zeta.
  destruct (QueryPerformanceCounter _) as [counter o2]. cbv beta iota zeta.
  change (Z.to_nat (Z.of_nat additional_sizeof)) with 16%nat.
  rewrite additional_record.
  change (Z.of_nat additional_sizeof) with 16. cbn [pool os s_pfnBCryptGenRandom].
  by destruct (rand_pool_add _ _ _ _) as [added p].
Qed.

(** C7.  Both nonce generators clear the whole record, padding included,
    before they set its fields: whatever the stack slot of the record held
    on entry, the bytes given to the pool, and with them the result, the
    final state and the trace, are the same. *)
Theorem nonce_records_hide_stack (stack1 stack2 : list byte) (s : state RAND_POOL OS) :
  rand_pool_add_nonce_data stack1 s = rand_pool_add_nonce_data stack2 s /\
  rand_pool_add_additional_data stack1 s = rand_pool_add_additional_data stack2 s.
Proof.
  by rewrite !rand_pool_add_nonce_data_unfold, !rand_pool_add_additional_data_unfold.
Qed.

(** Both generators return what [rand_pool_add] returned. *)
Lemma nonce_result_is_add_result (stack : list byte) (s : state RAND_POOL OS) :
  (exists data, (rand_pool_add_nonce_data stack s).1.1
                = (rand_pool_add (pool s) data 16 0).1) /\
  (exists data, (rand_pool_add_additional_data stack s).1.1
                = (rand_pool_add (pool s) data 16 0).1).
Proof.
  rewrite rand_pool_add_nonce_data_unfold, rand_pool_add_additional_data_unfold.
  split.
  - destruct (GetCurrentProcessId _) as [pid o1], (GetCurrentThreadId _) as [tid o2],
      (GetSystemTimeAsFileTime _) as [time o3]. cbv beta iota zeta.
    exists (le_bytes 4 pid ++ le_bytes 4 tid ++ le_bytes 4 time.1 ++ le_bytes 4 time.2).
    by destruct (rand_pool_add _ _ _ _).
  - destruct (GetCurrentThreadId _) as [tid o1], (QueryPerformanceCounter _) as [c o2].
    cbv beta iota zeta.
    exists (le_bytes 4 tid ++ [x00; x00; x00; x00] ++ le_bytes 8 c.2).
    by destruct (rand_pool_add _ _ _ _).
Qed.

(** Both generators call [rand_pool_add] once, with entropy 0. *)
Lemma nonce_claims_zero (stack : list byte) (s : state RAND_POOL OS) :
  add_entropies (rand_pool_add_nonce_data stack s).2 = [0] /\
  add_entropies (rand_pool_add_additional_data stack s).2 = [0].
Proof.
  rewrite rand_pool_add_nonce_data_unfold, rand_pool_add_additional_data_unfold.
  split.
  - destruct (GetCurrentProcessId _) as [pid o1], (GetCurrentThreadId _) as [tid o2],
      (GetSystemTimeAsFileTime _) as [time o3]. simpl.
    by destruct (rand_pool_add _ _ _ _).
  - destruct (GetCurrentThreadId _) as [tid o1], (QueryPerformanceCounter _) as [c o2].
    simpl. by destruct (rand_pool_add _ _ _ _).
Qed.
End Nonces.

(** ** The pool's accounting *)

Section PoolAccounting.
Import EntropyPool.

Lemma reserve_accounting (p : t) (n : Z) :
  buffer (reserve p n).2 = buffer p /\
  entropy_bits_credited (reserve p n).2 = entropy_bits_credited p /\
  max_entropy_bits (reserve p n).2 = max_entropy_bits p.
Proof. unfold reserve. by destruct (_ && _). Qed.

Lemma fill_accounting (p : t) (data : list byte) :
  buffer (fill p data) = buffer p /\
  entropy_bits_credited (fill p data) = entropy_bits_credited p /\
  max_entropy_bits (fill p data) = max_entropy_bits p.
Proof. unfold fill. by destruct (reservation p). Qed.

Lemma credit_bounds (p : t) (b e : Z) :
  0 <= b ->
  entropy_bits_credited p <= max_entropy_bits p ->
  0 <= credit p b e <= 8 * b /\
  entropy_bits_credited p + credit p b e <= max_entropy_bits p.
Proof. unfold credit. lia. Qed.

Lemma commit_accounting (p : t) (b e : Z) :
  available_entropy p <= 8 * bytes_written p ->
  available_entropy p <= max_entropy_bits p ->
  available_entropy p <= available_entropy (commit p b e) /\
  available_entropy (commit p b e) <= 8 * bytes_written (commit p b e) /\
  available_entropy (commit p b e) <= max_entropy_bits p /\
  max_entropy_bits (commit p b e) = max_entropy_bits p.
Proof.
  unfold available_entropy, bytes_written, commit. intros H8 Hmax.
  destruct (reservation p) as [region|]; [|lia].
  destruct (0 <=? b) eqn:Hb; simpl; [|lia].
  destruct (b <=? Z.of_nat (length region)) eqn:Hr; simpl; [|lia].
  apply Z.leb_le in Hb, Hr.
  destruct (credit_bounds p b e Hb Hmax) as [[C0 C8] Cmax].
  rewrite length_app, length_take. lia.
Qed.

Lemma add_accounting (p : t) (data : list byte) (len e : Z) :
  available_entropy p <= 8 * bytes_written p ->
  available_entropy p <= max_entropy_bits p ->
  available_entropy p <= available_entropy (add p data len e).2 /\
  available_entropy (add p data len e).2 <= 8 * bytes_written (add p data len e).2 /\
  available_entropy (add p data len e).2 <= max_entropy_bits p /\
  max_entropy_bits (add p data len e).2 = max_entropy_bits p.
Proof.
  intros H8 Hmax. unfold add.
  destruct (reserve_accounting p len) as (Rb & Re & Rm).
  destruct (reserve p len) as [[|] p1]; simpl in *.
  - destruct (fill_accounting p1 data) as (Fb & Fe & Fm).
    unfold available_entropy, bytes_written in *.
    rewrite <- Re, <- Rm, <- Fe, <- Fm. rewrite <- Rb, <- Fb in H8.
    rewrite <- Re, <- Fe in H8. rewrite <- Re, <- Rm, <- Fe, <- Fm in Hmax.
    apply (commit_accounting (fill p1 data) len e H8 Hmax).
  - unfold available_entropy, bytes_written in *. rewrite Rb, Re, Rm. lia.
Qed.

Lemma apply_accounting (p : t) (o : op) :
  available_entropy p <= 8 * bytes_written p ->
  available_entropy p <= max_entropy_bits p ->
  available_entropy (apply p o) <= 8 * bytes_written (apply p o) /\
  available_entropy (apply p o) <= max_entropy_bits (apply p o) /\
  max_entropy_bits (apply p o) = max_entropy_bits p.
Proof.
  intros H8 Hmax. destruct o as [n|data|b e|data len e]; simpl.
  - destruct (reserve_accounting p n) as (Rb & Re & Rm).
    unfold available_entropy, bytes_written in *. rewrite Rb, Re, Rm. lia.
  - destruct (fill_accounting p data) as (Fb & Fe & Fm).
    unfold available_entropy, bytes_written in *. rewrite Fb, Fe, Fm. lia.
  - destruct (commit_accounting p b e H8 Hmax) as (_ & C8 & Cm & Cmax). lia.
  - destruct (add_accounting p data len e H8 Hmax) as (_ & C8 & Cm & Cmax). lia.
Qed.

(** C1.  No over-crediting: when a pool credits no more than 8 bits per
    byte written and no more than its configured maximum, as a fresh pool
    does, then after any sequence of reservations, fills, commits and adds,
    whatever the entropy each of them claims, [available_entropy] is at most
    8 times the bytes written and at most the configured
    [max_entropy_bits]. *)
Theorem never_over_credited (ops : list op) (p : t) :
  available_entropy p <= 8 * bytes_written p ->
  available_entropy p <= max_entropy_bits p ->
  available_entropy (run ops p) <= 8 * bytes_written (run ops p) /\
  available_entropy (run ops p) <= max_entropy_bits p.
Proof.
  revert p. induction ops as [|o ops IH]; intros p H8 Hmax; simpl; [done|].
  destruct (apply_accounting p o H8 Hmax) as (A8 & Amax & Em).
  rewrite <- Em. by apply IH.
Qed.

(** A source claims 1000 bits for 48 bytes in a pool capped at 256. *)
Lemma never_over_credited_witness :
  available_entropy
    (run [Reserve 48; Fill (replicate 48 x5a); Commit 48 1000] (create 64 32 256))
  <= 8 * bytes_written
           (run [Reserve 48; Fill (replicate 48 x5a); Commit 48 1000] (create 64 32 256))
  /\
  available_entropy
    (run [Reserve 48; Fill (replicate 48 x5a); Commit 48 1000] (create 64 32 256))
  <= max_entropy_bits (create 64 32 256).
Proof.
  apply (never_over_credited
           [Reserve 48; Fill (replicate 48 x5a); Commit 48 1000] (create 64 32 256));
    vm_compute; discriminate.
Defined.
End PoolAccounting.

Section NoncesOnThePool.
Context {OS : Type} `{Windows OS}.
Context (bytes_needed : EntropyPool.t -> Z -> Z)
        (from_tsc from_cpu : EntropyPool.t -> Z * EntropyPool.t).

Abbreviation the_pool := (EntropyPool.rand_local bytes_needed from_tsc from_cpu).
Abbreviation add_nonce_data := (@rand_pool_add_nonce_data _ OS the_pool _).
Abbreviation add_additional_data := (@rand_pool_add_additional_data _ OS the_pool _).

Lemma add_credits_nothing (p : EntropyPool.t) (data : list byte) (len : Z) :
  EntropyPool.available_entropy (EntropyPool.add p data len 0).2
  = EntropyPool.available_entropy p.
Proof.
  unfold EntropyPool.add, EntropyPool.available_entropy.
  destruct (reserve_accounting p len) as (_ & Re & _).
  destruct (EntropyPool.reserve p len) as [[|] p1]; simpl in *; [|done].
  destruct (fill_accounting p1 data) as (_ & Fe & _).
  unfold EntropyPool.commit.
  destruct (EntropyPool.reservation (EntropyPool.fill p1 data)) as [region|];
    [|congruence].
  destruct (_ && _); simpl; [|congruence].
  unfold EntropyPool.credit. lia.
Qed.

(** C8.  Both nonce generators add their record with a claimed entropy of
    exactly zero: the one call of [rand_pool_add] each of them makes has
    entropy argument 0, and the entropy the pool reports as available is
    the same after the call as before. *)
Theorem nonce_credits_no_entropy (stack : list byte) (s : state EntropyPool.t OS) :
  (add_entropies (add_nonce_data stack s).2 = [0] /\
   EntropyPool.available_entropy (pool (add_nonce_data stack s).1.2)
   = EntropyPool.available_entropy (pool s)) /\
  (add_entropies (add_additional_data stack s).2 = [0] /\
   EntropyPool.available_entropy (pool (add_additional_data stack s).1.2)
   = EntropyPool.available_entropy (pool s)).
Proof.
  destruct (@nonce_claims_zero _ OS the_pool _ stack s) as [Z1 Z2].
  split; (split; [done|]).
  - rewrite rand_pool_add_nonce_data_unfold.
    destruct (GetCurrentProcessId _) as [pid o1], (GetCurrentThreadId _) as [tid o2],
      (GetSystemTimeAsFileTime _) as [time o3]. cbv beta iota zeta.
    pose proof (add_credits_nothing (pool s)
      (le_bytes 4 pid ++ le_bytes 4 tid ++ le_bytes 4 time.1 ++ le_bytes 4 time.2) 16) as E.
    change (@rand_pool_add _ the_pool) with EntropyPool.add.
    by destruct (EntropyPool.add _ _ _ _).
  - rewrite rand_pool_add_additional_data_unfold.
    destruct (GetCurrentThreadId _) as [tid o1], (QueryPerformanceCounter _) as [c o2].
    cbv beta iota zeta.
    pose proof (add_credits_nothing (pool s)
      (le_bytes 4 tid ++ [x00; x00; x00; x00] ++ le_bytes 8 c.2) 16) as E.
    change (@rand_pool_add _ the_pool) with EntropyPool.add.
    by destruct (EntropyPool.add _ _ _ _).
Qed.

Lemma add_succeeds (p : EntropyPool.t) (data : list byte) (len entropy : Z) :
  (EntropyPool.add p data len entropy).1 = 1.
Proof. unfold EntropyPool.add. by destruct (EntropyPool.reserve p len) as [[|] p1]. Qed.

(** C9.  The nonce generators always succeed: for every pool, every state
    of the operating system and every content of the stack, each of them
    returns 1. *)
Theorem nonce_always_succeeds (stack : list byte) (s : state EntropyPool.t OS) :
  (add_nonce_data stack s).1.1 = 1 /\
  (add_additional_data stack s).1.1 = 1.
Proof.
  destruct (@nonce_result_is_add_result _ OS the_pool _ stack s) as [[d1 ->] [d2 ->]].
  split; apply add_succeeds.
Qed.
End NoncesOnThePool.

(** ** The lazy binding, many threads *)

Section RaceProofs.
Import Race.

Lemma sum_list_with_insert {A} (f : A -> nat) (l : list A) (i : nat) (x y : A) :
  l !! i = Some x ->
  (sum_list_with f (<[i := y]> l) + f x = sum_list_with f l + f y)%nat.
Proof.
  revert i. induction l as [|z l IH]; intros [|i] Hi; simpl in *; try done.
  - injection Hi as ->. lia.
  - specialize (IH i Hi). lia.
Qed.

Lemma thread_ok_after_win (a : arch) (v : Z) (l : list pc) :
  Forall (thread_ok a (PFN_BCryptGenRandom_NOTSET a)) l ->
  Forall (thread_ok a v) l.
Proof.
  intros Hl. eapply Forall_impl; [exact Hl|].
  intros [] Hp; simpl in *; try done; by destruct Hp.
Qed.

Lemma NOTSET_is_not_NULL (a : arch) : NULL <> PFN_BCryptGenRandom_NOTSET a.
Proof. by destruct a. Qed.

Lemma step_invariant (a : arch) (n : nat) (w : world) (i : nat) (answer : Z) :
  answer <> PFN_BCryptGenRandom_NOTSET a ->
  invariant a n w -> invariant a n (step a w i answer).
Proof.
  intros Hans (Hlen & kept & Hkept & Hloads & Hn & Hunset & Hok).
  unfold step. destruct (threads w !! i) as [p|] eqn:Hi; [|split; [done|]; by exists kept].
  pose proof (sum_list_with_insert in_hand (threads w) i p) as Shand.
  pose proof (sum_list_with_insert before_load (threads w) i p) as Sload.
  pose proof (Forall_lookup_1 _ _ _ _ Hok Hi) as Hp.
  assert (forall q, thread_ok a (static w) q ->
                    Forall (thread_ok a (static w)) (<[i := q]> (threads w))) as Hins.
  { intros q Hq. by apply Forall_insert. }
  destruct p as [| |hm|hm pfn|hm pfn2|pfn]; simpl in *.
  - (* line 79 *)
    assert ((if static w =? 0 then 0 else static w) = static w) as ->.
    { destruct (Z.eqb_spec (static w) 0); congruence. }
    destruct (Z.eqb_spec (static w) (PFN_BCryptGenRandom_NOTSET a)) as [E|NE].
    + specialize (Shand At84 Hi). specialize (Sload At84 Hi). simpl in *.
      split; [simpl; by rewrite length_insert|]. exists kept. simpl.
      repeat split; [done|lia|lia|done|by apply Hins].
    + specialize (Shand (At96 (static w)) Hi).
      specialize (Sload (At96 (static w)) Hi). simpl in *.
      split; [simpl; by rewrite length_insert|]. exists kept. simpl.
      repeat split; [done|lia|lia|done|by apply Hins].
  - (* line 84 *)
    specialize (Shand (At85 answer) Hi).
    specialize (Sload (At85 answer) Hi). simpl in *.
    split; [simpl; by rewrite length_insert|]. exists kept. simpl.
    destruct (answer =? NULL); simpl in *;
      repeat split; try done; try lia; by apply Hins.
  - (* lines 85-88 *)
    specialize (Shand (At90 hm (if negb (hm =? NULL) then answer else NULL)) Hi).
    specialize (Sload (At90 hm (if negb (hm =? NULL) then answer else NULL)) Hi).
    simpl in *.
    split; [simpl; by rewrite length_insert|]. exists kept. simpl.
    repeat split; try done; try lia. apply Hins. simpl.
    destruct (negb (hm =? NULL)); [done | apply NOTSET_is_not_NULL].
  - (* line 90 *)
    destruct (Z.eqb_spec (static w) (PFN_BCryptGenRandom_NOTSET a)) as [E|NE]; simpl.
    + specialize (Shand (At96 pfn) Hi). specialize (Sload (At96 pfn) Hi).
      simpl in *. specialize (Hunset E). subst kept.
      split; [simpl; by rewrite length_insert|].
      exists (if (hm =? NULL)%Z then 0%nat else 1%nat). simpl.
      split; [by destruct (hm =? NULL)|].
      split; [destruct (hm =? NULL); lia|].
      split; [lia|]. split; [done|].
      apply Forall_insert; [|done]. rewrite E in Hok.
      by apply thread_ok_after_win.
    + specialize (Shand (At92 hm (static w)) Hi).
      specialize (Sload (At92 hm (static w)) Hi). simpl in *.
      split; [simpl; by rewrite length_insert|]. exists kept. simpl.
      repeat split; try done; try lia. by apply Hins.
  - (* line 92 *)
    specialize (Shand (At96 pfn2) Hi). specialize (Sload (At96 pfn2) Hi).
    simpl in *.
    split; [simpl; by rewrite length_insert|]. exists kept. simpl.
    destruct (hm =? NULL); simpl in *;
      repeat split; try done; try lia; by apply Hins.
  - (* line 96 *)
    split; [done|]. by exists kept.
Qed.

Lemma init_invariant (a : arch) (n : nat) : invariant a n (init a n).
Proof.
  split; [apply length_replicate|]. exists 0%nat. simpl.
  assert (sum_list_with in_hand (replicate n At79) = 0%nat) as ->.
  { induction n; simpl; lia. }
  assert (sum_list_with before_load (replicate n At79) = n) as ->.
  { induction n; simpl; lia. }
  repeat split; try done; try lia.
  apply Forall_replicate. done.
Qed.

Lemma run_invariant (a : arch) (n : nat) (schedule : list (nat * Z)) (w : world) :
  plausible a schedule ->
  invariant a n w -> invariant a n (run a schedule w).
Proof.
  revert w. induction schedule as [|[i answer] schedule IH]; intros w Hpl Hw; [done|].
  apply Forall_cons in Hpl as [Hans Hpl]. simpl.
  apply IH; [done|]. by apply step_invariant.
Qed.

(** Once resolved, the static is never written again, whichever thread
    moves. *)
Lemma static_stable (a : arch) (w : world) (i : nat) (answer : Z) :
  static w <> PFN_BCryptGenRandom_NOTSET a ->
  static (step a w i answer) = static w.
Proof.
  intros NE. unfold step. destruct (threads w !! i) as [[]|]; simpl; try done.
  - destruct (Z.eqb_spec (static w) 0); congruence.
  - by destruct (Z.eqb_spec (static w) (PFN_BCryptGenRandom_NOTSET a)).
Qed.

(** C5.  Convergence of the race: let any number of threads run lines
    79-95 in any interleaving, with any plausible answers of Windows; once
    all of them have reached line 96, each holds in [pfnBCryptGenRandom] the
    one value the static holds, and that value is resolved if there is a
    thread at all; every library reference but at most one has been given
    back with [FreeLibrary], the losers of the exchange having released
    theirs; and no thread has loaded the library more than once. *)
Theorem race_converges (a : arch) (n : nat) (schedule : list (nat * Z)) :
  plausible a schedule ->
  Forall (fun p => finished p = true) (threads (run a schedule (init a n))) ->
  Forall (fun p => p = At96 (static (run a schedule (init a n))))
         (threads (run a schedule (init a n))) /\
  (n <> 0%nat -> static (run a schedule (init a n)) <> PFN_BCryptGenRandom_NOTSET a) /\
  (frees (run a schedule (init a n)) <= loads (run a schedule (init a n)))%nat /\
  (loads (run a schedule (init a n)) - frees (run a schedule (init a n)) <= 1)%nat /\
  (loads (run a schedule (init a n)) <= n)%nat.
Proof.
  intros Hpl Hfin.
  destruct (run_invariant a n schedule (init a n) Hpl (init_invariant a n))
    as (Hlen & kept & Hkept & Hloads & Hn & Hunset & Hok).
  set (w := run a schedule (init a n)) in *.
  assert (Forall (fun p => p = At96 (static w) /\ static w <> PFN_BCryptGenRandom_NOTSET a
                           /\ in_hand p = 0%nat) (threads w)) as Hall.
  { rewrite Forall_forall in *. intros p Hin.
    specialize (Hfin p Hin). specialize (Hok p Hin).
    destruct p; simpl in *; try done. destruct Hok as [-> NE]. done. }
  assert (sum_list_with in_hand (threads w) = 0%nat) as Hnone.
  { clear -Hall. induction Hall as [|p l (_ & _ & E) _ IH]; simpl; lia. }
  split; [|split; [|lia]].
  - eapply Forall_impl; [exact Hall|]. by intros p (E & _).
  - intros Hn0. destruct (threads w) as [|p l] eqn:El; simpl in *; [lia|].
    apply Forall_cons in Hall as [(_ & NE & _) _]. done.
Qed.
End RaceProofs.

(** ** The accounting across a call of [rand_pool_acquire_entropy] *)

Section AccountingAcrossACall.
Context {OS : Type} `{Windows OS}.
Context (bytes_needed : EntropyPool.t -> Z -> Z)
        (from_tsc from_cpu : EntropyPool.t -> Z * EntropyPool.t)
        (cap : Z).
Context (from_tsc_accounted :
           forall p, EntropyPool.accounted cap p -> EntropyPool.accounted cap (from_tsc p).2)
        (from_cpu_accounted :
           forall p, EntropyPool.accounted cap p -> EntropyPool.accounted cap (from_cpu p).2).

Abbreviation the_pool := (EntropyPool.rand_local bytes_needed from_tsc from_cpu).
Abbreviation prog := (@M EntropyPool.t OS).
Abbreviation sound := (@keeps_pool EntropyPool.t OS _ (EntropyPool.accounted cap)).

Lemma accounted_apply (p : EntropyPool.t) (o : EntropyPool.op) :
  EntropyPool.accounted cap p -> EntropyPool.accounted cap (EntropyPool.apply p o).
Proof.
  intros (H8 & Hmax & <-).
  destruct (apply_accounting p o H8 Hmax) as (A8 & Amax & Em).
  unfold EntropyPool.accounted. rewrite Em in *. done.
Qed.

Lemma sound_ret {A} (a : A) : sound (ret a).
Proof. intros s. simpl. auto. Qed.

Lemma sound_return {A} (v : Z) : sound (@return_ _ _ A v).
Proof. intros s. simpl. auto. Qed.

Lemma sound_bind {A B} (m : prog A) (k : A -> prog B) :
  sound m -> (forall a, sound (k a)) -> sound (bind m k).
Proof.
  intros Hm Hk s. unfold bind. specialize (Hm s).
  destruct (m s) as [[[a|v] s1] t1]; [|exact Hm].
  specialize (Hk a s1). destruct (k a s1) as [[r s2] t2]. auto.
Qed.

Lemma sound_on_pool {A} (f : EntropyPool.t -> A * EntropyPool.t) (ev : A -> event) :
  (forall p, EntropyPool.accounted cap p -> EntropyPool.accounted cap (f p).2) ->
  sound (on_pool f ev).
Proof.
  intros Hf s. unfold on_pool. specialize (Hf (pool s)).
  by destruct (f (pool s)) as [a p].
Qed.

Lemma sound_on_os {A} (f : OS -> A * OS) (ev : A -> event) : sound (on_os f ev).
Proof. intros s. unfold on_os. by destruct (f (os s)) as [a o]. Qed.

Lemma accounted_write (p : EntropyPool.t) (buffer : Z) (data : list byte) :
  EntropyPool.accounted cap p ->
  EntropyPool.accounted cap (@rand_pool_buffer_write _ the_pool p buffer data).
Proof.
  intros Hp. simpl. destruct (buffer =? NULL); [done|].
  apply (accounted_apply p (EntropyPool.Fill data) Hp).
Qed.

Lemma sound_add_begin (len : Z) : sound (@do_add_begin _ OS the_pool len).
Proof.
  apply sound_on_pool. intros p Hp. simpl.
  pose proof (accounted_apply p (EntropyPool.Reserve len) Hp) as Hr. simpl in Hr.
  by destruct (EntropyPool.reserve p len) as [[|] p1].
Qed.

Lemma sound_add_end (len entropy : Z) : sound (@do_add_end _ OS the_pool len entropy).
Proof.
  apply sound_on_pool. intros p Hp.
  apply (accounted_apply p (EntropyPool.Commit len entropy) Hp).
Qed.

Lemma sound_attempt_BCryptGenRandom (a : arch) (pfn ea : Z) :
  sound (@attempt_BCryptGenRandom _ OS the_pool _ a pfn ea).
Proof.
  unfold attempt_BCryptGenRandom.
  apply sound_bind; [by apply sound_on_pool|]. intros n.
  apply sound_bind; [apply sound_add_begin|]. intros buffer.
  destruct (negb (buffer =? NULL)); [|apply sound_ret].
  apply sound_bind.
  { intros s. unfold do_BCryptGenRandom.
    destruct (call_BCryptGenRandom _ _ _ _ _) as [[status written] o].
    apply accounted_write. }
  intros status.
  apply sound_bind; [apply sound_add_end | intros; by apply sound_on_pool].
Qed.

Lemma sound_attempt_CryptoAPI (a : arch) (provider : option string) (provtype ea : Z) :
  sound (@attempt_CryptoAPI _ OS the_pool _ a provider provtype ea).
Proof.
  unfold attempt_CryptoAPI.
  apply sound_bind; [by apply sound_on_pool|]. intros n.
  apply sound_bind; [apply sound_add_begin|]. intros buffer.
  destruct (negb (buffer =? NULL)); [|apply sound_ret].
  apply sound_bind; [apply sound_on_os|]. intros [r hProv]. simpl.
  apply sound_bind.
  { destruct (negb (r =? 0)); [|apply sound_ret].
    apply sound_bind.
    { intros s. unfold do_CryptGenRandom.
      destruct (CryptGenRandom _ _ _) as [[filled written] o].
      apply accounted_write. }
    intros filled.
    apply sound_bind; [apply sound_on_os | intros; apply sound_ret]. }
  intros bytes.
  apply sound_bind; [apply sound_add_end | intros; by apply sound_on_pool].
Qed.

Lemma sound_return_if_positive (ea : Z) : sound (return_if_positive ea).
Proof.
  unfold return_if_positive. destruct (0 <? ea); [apply sound_return | apply sound_ret].
Qed.

Lemma sound_bind_BCryptGenRandom (a : arch) :
  sound (@bind_BCryptGenRandom _ OS _ a).
Proof.
  unfold bind_BCryptGenRandom.
  apply sound_bind; [intros s; simpl; auto|]. intros pfn.
  destruct (pfn =? _); [|apply sound_ret].
  apply sound_bind; [apply sound_on_os|]. intros hm.
  apply sound_bind.
  { destruct (negb (hm =? NULL)); [apply sound_on_os | apply sound_ret]. }
  intros pfn1. apply sound_bind; [intros s; simpl; auto|]. intros pfn2.
  destruct (negb (pfn2 =? _)); [|apply sound_ret].
  apply sound_bind; [|intros; apply sound_ret].
  destruct (negb (hm =? NULL)); [apply sound_on_os | apply sound_ret].
Qed.

(** The accounting of section 4.1 holds across a whole acquisition call on
    this pool, whatever Windows answers, as long as the two hardware
    sources respect it. *)
Lemma acquire_entropy_keeps_accounting (cfg : build) (s : state EntropyPool.t OS) :
  EntropyPool.accounted cap (pool s) ->
  EntropyPool.accounted cap
    (pool (@rand_pool_acquire_entropy _ OS the_pool _ cfg s).1.2).
Proof.
  assert (sound (@rand_pool_acquire_entropy_body _ OS the_pool _ cfg)) as Hbody.
  { unfold rand_pool_acquire_entropy_body.
    apply sound_bind.
    { destruct (OPENSSL_RAND_SEED_RDTSC cfg); [|apply sound_ret].
      apply sound_bind; [by apply sound_on_pool | apply sound_return_if_positive]. }
    intros ea1. apply sound_bind.
    { destruct (OPENSSL_RAND_SEED_RDCPU cfg); [|apply sound_ret].
      apply sound_bind; [by apply sound_on_pool | apply sound_return_if_positive]. }
    intros ea2. apply sound_bind.
    { destruct (USE_BCRYPTGENRANDOM cfg); [|apply sound_ret].
      apply sound_bind; [apply sound_bind_BCryptGenRandom|].
      intros pfn. destruct (negb (pfn =? NULL)); [|apply sound_ret].
      apply sound_bind;
        [apply sound_attempt_BCryptGenRandom | apply sound_return_if_positive]. }
    intros ea3. apply sound_bind; [apply sound_attempt_CryptoAPI|].
    intros ea4. apply sound_bind; [apply sound_return_if_positive|].
    intros ea4'. apply sound_bind; [apply sound_attempt_CryptoAPI|].
    intros ea5. apply sound_bind; [apply sound_return_if_positive|].
    intros ea5'. apply sound_bind; [by apply sound_on_pool|].
    intros v. apply sound_return. }
  specialize (Hbody s). unfold rand_pool_acquire_entropy, call.
  by destruct (rand_pool_acquire_entropy_body cfg s) as [[[v|v] s1] t].
Qed.
End AccountingAcrossACall.

(** ** Arithmetic of the commit *)

(** [8 * bytes] does not wrap for a byte count below [2^(w-3)]. *)
Lemma size_t_mul_exact (a : arch) (bytes : Z) :
  0 <= bytes < 2 ^ (pointer_bits a - 3) ->
  size_t_mul a 8 bytes = 8 * bytes.
Proof.
  intros Hb. unfold size_t_mul, size_t_wrap. apply Z.mod_small.
  destruct a; simpl in *; lia.
Qed.

(** ** One thread alone runs lines 79-95 as written *)

Section Alone.
Context {RAND_POOL OS : Type} `{RandLocal RAND_POOL} `{Windows OS}.

Lemma race_of_one_is_bind_BCryptGenRandom (a : arch) (s : state RAND_POOL OS) :
  match LoadLibraryExA "BCRYPT.dll" NULL LOAD_LIBRARY_SEARCH_SYSTEM32 (os s) with
  | (hm, o1) =>
      match GetProcAddress hm "BCryptGenRandom" o1 with
      | (entry, _) =>
          match bind_BCryptGenRandom a s with
          | (r, s1, _) =>
              let w := Race.run a [(0%nat, 0); (0%nat, hm); (0%nat, entry);
                                   (0%nat, 0); (0%nat, 0)]
                         (Race.World (s_pfnBCryptGenRandom s) 0 0 [Race.At79]) in
              Race.static w = s_pfnBCryptGenRandom s1 /\
              match r with
              | Next pfn => Race.threads w = [Race.At96 pfn]
              | Returned _ => False
              end
          end
      end
  end.
Proof.
  unfold bind_BCryptGenRandom, bind, InterlockedCompareExchangePointer,
    do_LoadLibraryExA, do_GetProcAddress, do_FreeLibrary, on_os, ret.
  unfold Race.run, Race.step. simpl.
  assert ((if s_pfnBCryptGenRandom s =? 0 then 0 else s_pfnBCryptGenRandom s)
          = s_pfnBCryptGenRandom s) as ->.
  { destruct (Z.eqb_spec (s_pfnBCryptGenRandom s) 0); congruence. }
  destruct (Z.eqb_spec (s_pfnBCryptGenRandom s) (PFN_BCryptGenRandom_NOTSET a)) as [E|NE];
    simpl.
  - destruct (LoadLibraryExA _ _ _ _) as [hm o1]. simpl.
    destruct (hm =? NULL); simpl.
    + destruct (GetProcAddress _ _ _) as [entry o2].
      rewrite E, Z.eqb_refl. simpl. done.
    + destruct (GetProcAddress _ _ _) as [entry o2]. simpl.
      rewrite E, Z.eqb_refl. simpl. done.
  - destruct (LoadLibraryExA _ _ _ _) as [hm o1].
    destruct (GetProcAddress _ _ _) as [entry o2]. done.
Qed.
End Alone.

(** ** Runs on the scripted machine *)

Section Runs.
#[local] Existing Instance EntropyPool.example_rand_local.
#[local] Existing Instance Script.windows.
Import Script.

(** Section 8 of the design document: "pool target = 256 bits; mock
    primary OS source succeeds and supplies exactly 256 bits worth of
    bytes: acquire_entropy returns 256 and no fallback sources are
    called". *)
Example primary_source_suffices :
  let '(v, _, t) := rand_pool_acquire_entropy vista64 (first_call modern) in
  v = 256 /\
  t = [Ev_LoadLibraryExA "BCRYPT.dll" 0x800 0x7ff80000;
       Ev_GetProcAddress 0x7ff80000 "BCryptGenRandom" 0x7ff81230;
       Ev_bytes_needed 1 32; Ev_add_begin 32 1;
       Ev_BCryptGenRandom 0x7ff81230 32 2 0; Ev_add_end 32 256;
       Ev_entropy_available 256].
Proof. vm_compute. done. Qed.

(** "primary OS source fails, secondary variant A succeeds:
    acquire_entropy returns the secondary's credited bits, equal to
    8 * bytes_needed". *)
Example secondary_source_takes_over :
  let '(v, s1, t) := rand_pool_acquire_entropy vista64 (first_call legacy) in
  v = 8 * 32 /\ s_pfnBCryptGenRandom s1 = NULL /\
  t = [Ev_LoadLibraryExA "BCRYPT.dll" 0x800 0;
       Ev_bytes_needed 1 32; Ev_add_begin 32 1;
       Ev_CryptAcquireContextW None 1 0xF0000040 1 77;
       Ev_CryptGenRandom 77 32 1; Ev_CryptReleaseContext 77;
       Ev_add_end 32 256; Ev_entropy_available 256].
Proof. vm_compute. done. Qed.

(** "If all providers are mocked to fail, acquire_entropy returns 0". *)
Example every_source_fails :
  (rand_pool_acquire_entropy vista64 (first_call barren)).1.1 = 0.
Proof. vm_compute. done. Qed.

(** A later call on the machine without [BCRYPT.dll] does not look it up
    again. *)
Example negative_result_is_cached :
  (rand_pool_acquire_entropy vista64 (later_call legacy NULL)).2
  = [Ev_bytes_needed 1 32; Ev_add_begin 32 1;
     Ev_CryptAcquireContextW None 1 0xF0000040 1 77;
     Ev_CryptGenRandom 77 32 1; Ev_CryptReleaseContext 77;
     Ev_add_end 32 256; Ev_entropy_available 256].
Proof. vm_compute. done. Qed.

(** The monitors do reject: a partial commit, a commit without a buffer,
    a handle that is not released. *)
Example partial_commit_rejected :
  scan all_or_nothing Idle
    [Ev_add_begin 32 1; Ev_BCryptGenRandom 9 32 2 0; Ev_add_end 16 128] = None.
Proof. reflexivity. Qed.

Example credit_after_failure_rejected :
  scan all_or_nothing Idle
    [Ev_add_begin 32 1; Ev_BCryptGenRandom 9 32 2 0xC0000001; Ev_add_end 32 256] = None.
Proof. reflexivity. Qed.

Example commit_without_buffer_rejected :
  scan (reservation_protocol Win64) false [Ev_add_begin 32 NULL; Ev_add_end 0 0] = None.
Proof. reflexivity. Qed.

Example reservation_left_open_rejected :
  scan (reservation_protocol Win64) false [Ev_add_begin 32 1; Ev_entropy_available 0]
  <> Some false.
Proof. discriminate. Qed.

Example leaked_handle_rejected :
  scan handle_custody (Custody None None)
    [Ev_add_begin 32 1; Ev_CryptAcquireContextW None 1 0xF0000040 1 77;
     Ev_CryptGenRandom 77 32 0; Ev_add_end 0 0] = None.
Proof. reflexivity. Qed.

(** Without the [memset], the padding of the second record would carry
    what the stack held. *)
Example padding_would_leak :
  added_bytes (call (additional_data_without_memset (replicate 16 xff))
                    (first_call barren)).2
  <> added_bytes (call (additional_data_without_memset (replicate 16 x00))
                       (first_call barren)).2.
Proof. vm_compute. discriminate. Qed.

Example padding_is_cleared :
  added_bytes (rand_pool_add_additional_data (replicate 16 xff) (first_call barren)).2
  = [[x11; x00; x00; x00; x00; x00; x00; x00; xe8; x03; x00; x00; x00; x00; x00; x00]].
Proof. vm_compute. done. Qed.

(** The binding on the scripted machines: bound once it is bound,
    unavailable once the lookup has failed, resolved after any lookup. *)
Lemma binding_resolved_once_witness :
  s_pfnBCryptGenRandom
    (rand_pool_acquire_entropy vista64 (later_call modern 0x7ff81230)).1.2 = 0x7ff81230 /\
  s_pfnBCryptGenRandom (rand_pool_acquire_entropy vista64 (first_call legacy)).1.2 = NULL /\
  s_pfnBCryptGenRandom (rand_pool_acquire_entropy vista64 (first_call modern)).1.2
  <> PFN_BCryptGenRandom_NOTSET Win64.
Proof.
  split; [|split].
  - generalize (binding_resolved_once vista64 (later_call modern 0x7ff81230)).
    destruct (rand_pool_acquire_entropy _ _) as [[v s1] t].
    intros [Stay _]. apply Stay. vm_compute. discriminate.
  - generalize (binding_resolved_once vista64 (first_call legacy)).
    destruct (rand_pool_acquire_entropy _ _) as [[v s1] t] eqn:Run.
    intros (_ & Failed & _). apply Failed.
    vm_compute in Run. injection Run as _ _ <-. by left.
  - generalize (binding_resolved_once vista64 (first_call modern)).
    destruct (rand_pool_acquire_entropy _ _) as [[v s1] t] eqn:Run.
    intros (_ & _ & Looked). vm_compute in Run. injection Run as _ _ <-.
    apply Looked; [by repeat constructor | by left].
Defined.

(** Two threads race on a machine with [BCRYPT.dll]: both load it, the
    second loses the exchange and frees its reference. *)
Lemma race_converges_witness :
  Forall (fun p => p = Race.At96 0x7ff81230)
    (Race.threads
       (Race.run Win64
          [(0%nat, 0); (1%nat, 0); (0%nat, 0x7ff80000); (1%nat, 0x7ff80000);
           (0%nat, 0x7ff81230); (1%nat, 0x7ff81230); (0%nat, 0); (1%nat, 0); (1%nat, 0)]
          (Race.init Win64 2))) /\
  Race.loads
    (Race.run Win64
       [(0%nat, 0); (1%nat, 0); (0%nat, 0x7ff80000); (1%nat, 0x7ff80000);
        (0%nat, 0x7ff81230); (1%nat, 0x7ff81230); (0%nat, 0); (1%nat, 0); (1%nat, 0)]
       (Race.init Win64 2)) = 2%nat /\
  Race.frees
    (Race.run Win64
       [(0%nat, 0); (1%nat, 0); (0%nat, 0x7ff80000); (1%nat, 0x7ff80000);
        (0%nat, 0x7ff81230); (1%nat, 0x7ff81230); (0%nat, 0); (1%nat, 0); (1%nat, 0)]
       (Race.init Win64 2)) = 1%nat.
Proof.
  split; [|by vm_compute].
  apply (race_converges Win64 2
           [(0%nat, 0); (1%nat, 0); (0%nat, 0x7ff80000); (1%nat, 0x7ff80000);
            (0%nat, 0x7ff81230); (1%nat, 0x7ff81230); (0%nat, 0); (1%nat, 0);
            (1%nat, 0)]).
  - repeat constructor; intros E; vm_compute in E; discriminate E.
  - vm_compute. by repeat constructor.
Defined.
End Runs.

(** ** Every run is a chain of attempts *)

Section Shapes.
Context {RAND_POOL OS : Type} `{RandLocal RAND_POOL} `{Windows OS}.

Lemma bind_BCryptGenRandom_resolution (a : arch) (s : state RAND_POOL OS) :
  exists pfn s1 t,
    bind_BCryptGenRandom a s = (Next pfn, s1, t) /\
    s_pfnBCryptGenRandom s1 = pfn /\
    resolution a (s_pfnBCryptGenRandom s) pfn t.
Proof.
  unfold bind_BCryptGenRandom, bind, InterlockedCompareExchangePointer,
    do_LoadLibraryExA, do_GetProcAddress, do_FreeLibrary, on_os, ret. simpl.
  assert ((if s_pfnBCryptGenRandom s =? 0 then 0 else s_pfnBCryptGenRandom s)
          = s_pfnBCryptGenRandom s) as Same.
  { destruct (Z.eqb_spec (s_pfnBCryptGenRandom s) 0); congruence. }
  destruct (Z.eqb_spec (s_pfnBCryptGenRandom s) (PFN_BCryptGenRandom_NOTSET a)) as [E|NE].
  2:{ eexists _, _, _. split; [reflexivity|]. simpl. split; [exact Same|].
      by constructor. }
  destruct (LoadLibraryExA _ _ _ _) as [hm o1]. simpl.
  destruct (hm =? NULL) eqn:Hhm; simpl.
  - rewrite Same, E, Z.eqb_refl. simpl.
    eexists _, _, _. split; [reflexivity|]. simpl. split; [reflexivity|].
    by constructor.
  - destruct (GetProcAddress _ _ _) as [pfn o2]. simpl.
    rewrite Same, E, Z.eqb_refl. simpl.
    eexists _, _, _. split; [reflexivity|]. simpl. split; [reflexivity|].
    by constructor.
Qed.

Lemma attempt_BCryptGenRandom_through (a : arch) (pfn : Z) (s : state RAND_POOL OS) :
  exists v s1 t,
    attempt_BCryptGenRandom a pfn 0 s = (Next v, s1, t) /\
    s_pfnBCryptGenRandom s1 = s_pfnBCryptGenRandom s /\
    through_BCrypt a pfn v t.
Proof.
  unfold attempt_BCryptGenRandom, bind, do_bytes_needed, do_add_begin,
    do_BCryptGenRandom, do_add_end, do_entropy_available, on_pool, ret. simpl.
  destruct (rand_pool_bytes_needed _ _) as [n p1]. simpl.
  destruct (rand_pool_add_begin _ _) as [buffer p2]. simpl.
  destruct (buffer =? NULL) eqn:Hb; simpl.
  - eexists _, _, _. split; [reflexivity|]. split; [reflexivity|]. by constructor.
  - destruct (call_BCryptGenRandom _ _ _ _ _) as [[status written] o1]. simpl.
    destruct (rand_pool_add_end _ _ _) as [r p3]. simpl.
    destruct (rand_pool_entropy_available _) as [v p4]. simpl.
    eexists _, _, _. split; [reflexivity|]. split; [reflexivity|]. by constructor.
Qed.

Lemma attempt_CryptoAPI_through (a : arch) (provider : option string) (provtype : Z)
    (s : state RAND_POOL OS) :
  exists v s1 t,
    attempt_CryptoAPI a provider provtype 0 s = (Next v, s1, t) /\
    s_pfnBCryptGenRandom s1 = s_pfnBCryptGenRandom s /\
    through_CryptoAPI a provider provtype v t.
Proof.
  unfold attempt_CryptoAPI, bind, do_bytes_needed, do_add_begin,
    do_CryptAcquireContextW, do_CryptGenRandom, do_CryptReleaseContext,
    do_add_end, do_entropy_available, on_pool, on_os, ret. simpl.
  destruct (rand_pool_bytes_needed _ _) as [n p1]. simpl.
  destruct (rand_pool_add_begin _ _) as [buffer p2]. simpl.
  destruct (buffer =? NULL) eqn:Hb; simpl.
  - eexists _, _, _. split; [reflexivity|]. split; [reflexivity|]. by constructor.
  - destruct (CryptAcquireContextW _ _ _ _ _) as [[r hProv] o1]. simpl.
    destruct (r =? 0) eqn:Hr; simpl.
    + destruct (rand_pool_add_end _ _ _) as [r2 p3]. simpl.
      destruct (rand_pool_entropy_available _) as [v p4]. simpl.
      eexists _, _, _. split; [reflexivity|]. split; [reflexivity|].
      by apply CryptoAPI_refused.
    + destruct (CryptGenRandom _ _ _) as [[filled written] o2]. simpl.
      destruct (CryptReleaseContext _ _ _) as [r1 o3]. simpl.
      destruct (rand_pool_add_end _ _ _) as [r2 p3]. simpl.
      destruct (rand_pool_entropy_available _) as [v p4]. simpl.
      eexists _, _, _. split; [reflexivity|]. split; [reflexivity|].
      by apply CryptoAPI_asked.
Qed.

Lemma attempt_outcome (cfg : build) (src : source) (s : state RAND_POOL OS) :
  exists v s1 t,
    attempt cfg src s = (Next v, s1, t) /\
    outcome (target cfg) src (s_pfnBCryptGenRandom s) (s_pfnBCryptGenRandom s1) v t.
Proof.
  destruct src; simpl.
  - unfold do_from_tsc, on_pool.
    destruct (rand_acquire_entropy_from_tsc _) as [v p].
    eexists _, _, _. split; [reflexivity|]. constructor.
  - unfold do_from_cpu, on_pool.
    destruct (rand_acquire_entropy_from_cpu _) as [v p].
    eexists _, _, _. split; [reflexivity|]. constructor.
  - unfold bind.
    destruct (bind_BCryptGenRandom_resolution (target cfg) s)
      as (pfn & s1 & t1 & -> & E1 & R).
    destruct (pfn =? NULL) eqn:Hp; simpl.
    + eexists _, _, _. split; [reflexivity|]. rewrite E1, app_nil_r.
      by apply outcome_BCrypt_unavailable.
    + destruct (attempt_BCryptGenRandom_through (target cfg) pfn s1)
        as (v & s2 & t2 & -> & E2 & T).
      eexists _, _, _. split; [reflexivity|]. rewrite E2, E1.
      by apply outcome_BCrypt.
  - destruct (attempt_CryptoAPI_through (target cfg) None PROV_RSA_FULL s)
      as (v & s1 & t & -> & E & T).
    eexists _, _, _. split; [reflexivity|]. rewrite E. by constructor.
  - destruct (attempt_CryptoAPI_through (target cfg) (Some INTEL_DEF_PROV) PROV_INTEL_SEC s)
      as (v & s1 & t & -> & E & T).
    eexists _, _, _. split; [reflexivity|]. rewrite E. by constructor.
Qed.

Lemma try_in_order_chain (cfg : build) (srcs : list source) (s : state RAND_POOL OS) :
  match try_in_order cfg srcs s with
  | (v, s1, t) =>
      chain (target cfg) srcs (s_pfnBCryptGenRandom s) (s_pfnBCryptGenRandom s1) v t
  end.
Proof.
  revert s. induction srcs as [|src rest IH]; intros s; simpl.
  - unfold call, do_entropy_available, on_pool.
    destruct (rand_pool_entropy_available _) as [v p]. constructor.
  - destruct (attempt_outcome cfg src s) as (e & s1 & t1 & E & O).
    unfold call. rewrite E.
    destruct (0 <? e) eqn:He.
    + by apply chain_stop.
    + specialize (IH s1). destruct (try_in_order cfg rest s1) as [[v s2] t2].
      by eapply chain_go.
Qed.

(** The body of the function, link by link. *)
Lemma acquire_entropy_body_unrolled (cfg : build) (s : state RAND_POOL OS) :
  call (rand_pool_acquire_entropy_body cfg) s
  = try_in_order cfg (List.filter (compiled_in cfg) priority_order) s.
Proof.
  unfold rand_pool_acquire_entropy_body.
  cbn [List.filter priority_order compiled_in].
  revert s. apply chain_optional; [apply alike_on_pool | reflexivity |].
  intros ea1 s1 H1. revert s1.
  apply chain_optional; [apply alike_on_pool | exact H1 |].
  intros ea2 s2 H2. revert s2.
  apply chain_bcrypt; [exact H2|].
  intros ea3 s3 H3. revert s3.
  apply chain_link; [by apply attempt_CryptoAPI_alike|].
  intros ea4 s4 H4. revert s4.
  apply chain_link; [by apply attempt_CryptoAPI_alike|].
  intros ea5 s5 H5. simpl.
  unfold call, bind, do_entropy_available, on_pool, return_.
  by destruct (rand_pool_entropy_available (pool s5)).
Qed.

Lemma acquire_entropy_chain (cfg : build) (s : state RAND_POOL OS) :
  match rand_pool_acquire_entropy cfg s with
  | (v, s1, t) =>
      chain (target cfg) (List.filter (compiled_in cfg) priority_order)
            (s_pfnBCryptGenRandom s) (s_pfnBCryptGenRandom s1) v t
  end.
Proof.
  unfold rand_pool_acquire_entropy. rewrite acquire_entropy_body_unrolled.
  apply try_in_order_chain.
Qed.
End Shapes.

(** ** What every chain of attempts has *)

Lemma resolution_invokes_nothing (a : arch) (st pfn : Z) (t : list event) :
  resolution a st pfn t -> omap invoked t = [].
Proof. by intros []. Qed.

Lemma outcome_invoked (a : arch) (src : source) (st st1 v : Z) (t : list event) :
  outcome a src st st1 v t -> omap invoked t = [] \/ omap invoked t = [src].
Proof.
  intros [st0 v0|st0 v0|st0 pfn t0 R Hp|st0 pfn v0 t1 t2 R Hp T|st0 v0 t0 T|st0 v0 t0 T].
  - by right.
  - by right.
  - left. by eapply resolution_invokes_nothing.
  - rewrite omap_app, (resolution_invokes_nothing _ _ _ _ R). destruct T; auto.
  - destruct T; auto.
  - destruct T; auto.
Qed.

Lemma chain_invoked (a : arch) (srcs : list source) (st st1 v : Z) (t : list event) :
  chain a srcs st st1 v t -> omap invoked t `sublist_of` srcs.
Proof.
  induction 1 as [st v|src rest st st1 v t O Hv|src rest st st1 st2 e v t1 t2 O He C IH].
  - apply sublist_nil_l.
  - destruct (outcome_invoked _ _ _ _ _ _ O) as [-> | ->].
    + apply sublist_nil_l.
    + apply sublist_skip, sublist_nil_l.
  - rewrite omap_app. destruct (outcome_invoked _ _ _ _ _ _ O) as [-> | ->]; simpl.
    + by apply sublist_cons.
    + by apply sublist_skip.
Qed.

Lemma last_report_app (t1 t2 : list event) (v : Z) :
  last_report t2 = Some v -> last_report (t1 ++ t2) = Some v.
Proof.
  unfold last_report. intros E. rewrite omap_app, last_app, E. done.
Qed.

Lemma outcome_report (a : arch) (src : source) (st st1 v : Z) (t : list event) :
  outcome a src st st1 v t -> (0 <? v) = true -> last_report t = Some v.
Proof.
  intros [st0 v0|st0 v0|st0 pfn t0 R Hp|st0 pfn v0 t1 t2 R Hp T|st0 v0 t0 T|st0 v0 t0 T] Hv;
    try done.
  - apply last_report_app. by destruct T.
  - by destruct T.
  - by destruct T.
Qed.

Lemma chain_report (a : arch) (srcs : list source) (st st1 v : Z) (t : list event) :
  chain a srcs st st1 v t -> last_report t = Some v.
Proof.
  induction 1 as [st v|src rest st st1 v t O Hv|src rest st st1 st2 e v t1 t2 O He C IH].
  - done.
  - by eapply outcome_report.
  - by apply last_report_app.
Qed.

Lemma count_app (f : event -> bool) (t1 t2 : list event) :
  count f (t1 ++ t2) = (count f t1 + count f t2)%nat.
Proof. unfold count. by rewrite List.filter_app, length_app. Qed.

Lemma outcome_turn (f : event -> bool) (a : arch) (src : source) (st st1 v : Z)
    (t : list event) :
  (forall x, f (Ev_from_tsc x) = f (Ev_from_tsc 0)) ->
  (forall x, f (Ev_from_cpu x) = f (Ev_from_cpu 0)) ->
  (forall x y, f (Ev_add_begin x y) = f (Ev_add_begin 0 0)) ->
  outcome a src st st1 v t ->
  (owed f [src] <= count f t)%nat.
Proof.
  intros Htsc Hcpu Hres.
  intros [st0 v0|st0 v0|st0 pfn t0 R Hp|st0 pfn v0 t1 t2 R Hp T|st0 v0 t0 T|st0 v0 t0 T];
    unfold owed, count; simpl; try lia.
  - rewrite (Htsc v0). destruct (f (Ev_from_tsc 0)); simpl; lia.
  - rewrite (Hcpu v0). destruct (f (Ev_from_cpu 0)); simpl; lia.
  - destruct T; simpl; rewrite (Hres n buffer);
      destruct (f (Ev_bytes_needed 1 n)), (f (Ev_add_begin 0 0)); simpl; lia.
  - destruct T; simpl; rewrite (Hres n buffer);
      destruct (f (Ev_bytes_needed 1 n)), (f (Ev_add_begin 0 0)); simpl; lia.
Qed.

Lemma chain_turns (f : event -> bool) (a : arch) (srcs : list source) (st st1 v : Z)
    (t : list event) :
  (forall x, f (Ev_from_tsc x) = f (Ev_from_tsc 0)) ->
  (forall x, f (Ev_from_cpu x) = f (Ev_from_cpu 0)) ->
  (forall x y, f (Ev_add_begin x y) = f (Ev_add_begin 0 0)) ->
  chain a srcs st st1 v t ->
  (0 <? v) = false ->
  (owed f srcs <= count f t)%nat.
Proof.
  intros Htsc Hcpu Hres.
  induction 1 as [st v|src rest st st1 v t O Hv|src rest st st1 st2 e v t1 t2 O He C IH];
    intros Hneg.
  - unfold owed. simpl. lia.
  - congruence.
  - specialize (IH Hneg). rewrite count_app.
    pose proof (outcome_turn f _ _ _ _ _ _ Htsc Hcpu Hres O) as Hone.
    change (src :: rest) with ([src] ++ rest).
    unfold owed in *. rewrite List.filter_app, length_app. lia.
Qed.

Lemma resolution_stable (a : arch) (st pfn : Z) (t : list event) :
  resolution a st pfn t -> st <> PFN_BCryptGenRandom_NOTSET a -> pfn = st.
Proof. by intros []. Qed.

Lemma outcome_stable (a : arch) (src : source) (st st1 v : Z) (t : list event) :
  outcome a src st st1 v t -> st <> PFN_BCryptGenRandom_NOTSET a -> st1 = st.
Proof.
  intros [st0 v0|st0 v0|st0 pfn t0 R Hp|st0 pfn v0 t1 t2 R Hp T|st0 v0 t0 T|st0 v0 t0 T] NE;
    try done; by eapply resolution_stable.
Qed.

Lemma chain_stable (a : arch) (srcs : list source) (st st1 v : Z) (t : list event) :
  chain a srcs st st1 v t -> st <> PFN_BCryptGenRandom_NOTSET a -> st1 = st.
Proof.
  induction 1 as [st v|src rest st st1 v t O Hv|src rest st st1 st2 e v t1 t2 O He C IH];
    intros NE.
  - done.
  - by eapply outcome_stable.
  - pose proof (outcome_stable _ _ _ _ _ _ O NE) as ->. by apply IH.
Qed.

Lemma resolution_resolves (a : arch) (st pfn : Z) (t : list event) :
  resolution a st pfn t ->
  Forall (fun e => plausible_answer a e = true) t ->
  pfn <> PFN_BCryptGenRandom_NOTSET a.
Proof.
  intros [st0 NE|hm Hhm|hm pfn0 Hhm] Hpl.
  - done.
  - by destruct a.
  - apply Forall_cons in Hpl as [_ Hpl]. apply Forall_cons in Hpl as [Hpl _].
    simpl in Hpl. by apply negb_true_iff, Z.eqb_neq in Hpl.
Qed.

Lemma resolution_calls_nothing (a : arch) (st pfn static : Z) (t : list event) :
  resolution a st pfn t -> Forall (calls_through static) t.
Proof. intros []; by repeat constructor. Qed.

Lemma through_CryptoAPI_calls_nothing (a : arch) (provider : option string)
    (provtype v static : Z) (t : list event) :
  through_CryptoAPI a provider provtype v t ->
  Forall (calls_through static) t /\ omap invoked t <> [BCryptBinding].
Proof.
  intros []; (split; [by repeat constructor|]); simpl; try done;
    by destruct (provtype =? PROV_RSA_FULL).
Qed.

(** After an attempt, every call it made went through the static's
    value, which is resolved if a call was made at all. *)
Lemma outcome_calls (a : arch) (src : source) (st st1 v : Z) (t : list event) :
  outcome a src st st1 v t ->
  Forall (fun e => plausible_answer a e = true) t ->
  Forall (calls_through st1) t /\
  (Exists (fun e => invoked e = Some BCryptBinding) t ->
   st1 <> PFN_BCryptGenRandom_NOTSET a).
Proof.
  intros [st0 v0|st0 v0|st0 pfn t0 R Hp|st0 pfn v0 t1 t2 R Hp T|st0 v0 t0 T|st0 v0 t0 T] Hpl.
  - split; [by repeat constructor|]. intros Hex.
    apply Exists_cons in Hex as [Hex|Hex]; [done | by apply Exists_nil in Hex].
  - split; [by repeat constructor|]. intros Hex.
    apply Exists_cons in Hex as [Hex|Hex]; [done | by apply Exists_nil in Hex].
  - split; [by eapply resolution_calls_nothing|]. intros _.
    by eapply resolution_resolves.
  - apply Forall_app in Hpl as [Hpl1 Hpl2]. split.
    + apply Forall_app. split; [by eapply resolution_calls_nothing|].
      apply Z.eqb_neq in Hp. destruct T; by repeat constructor.
    + intros _. by eapply resolution_resolves.
  - destruct (through_CryptoAPI_calls_nothing _ _ _ _ st0 _ T) as [F N].
    split; [done|]. intros Hex. exfalso.
    destruct T; simpl in *;
      repeat (apply Exists_cons in Hex as [Hex|Hex]; [by simpl in Hex|]);
      by apply Exists_nil in Hex.
  - destruct (through_CryptoAPI_calls_nothing _ _ _ _ st0 _ T) as [F N].
    split; [done|]. intros Hex. exfalso.
    destruct T; simpl in *;
      repeat (apply Exists_cons in Hex as [Hex|Hex]; [by simpl in Hex|]);
      by apply Exists_nil in Hex.
Qed.

Lemma calls_through_later (st1 st2 : Z) (t : list event) :
  Forall (calls_through st1) t ->
  (Exists (fun e => invoked e = Some BCryptBinding) t -> st2 = st1) ->
  Forall (calls_through st2) t.
Proof.
  intros F Hsame. rewrite Forall_forall in *. intros e Hin.
  specialize (F e Hin). destruct e; try done. simpl in *.
  rewrite Hsame; [done|]. apply Exists_exists. eexists. split; [exact Hin | done].
Qed.

Lemma chain_calls (a : arch) (srcs : list source) (st st1 v : Z) (t : list event) :
  chain a srcs st st1 v t ->
  Forall (fun e => plausible_answer a e = true) t ->
  Forall (calls_through st1) t /\
  (Exists (fun e => invoked e = Some BCryptBinding) t ->
   st1 <> PFN_BCryptGenRandom_NOTSET a).
Proof.
  induction 1 as [st v|src rest st st1 v t O Hv|src rest st st1 st2 e v t1 t2 O He C IH];
    intros Hpl.
  - split; [by repeat constructor|]. intros Hex.
    apply Exists_cons in Hex as [Hex|Hex]; [done | by apply Exists_nil in Hex].
  - by eapply outcome_calls.
  - apply Forall_app in Hpl as [Hpl1 Hpl2].
    destruct (outcome_calls _ _ _ _ _ _ O Hpl1) as [F1 R1].
    destruct (IH Hpl2) as [F2 R2].
    assert (Exists (fun e => invoked e = Some BCryptBinding) t1 -> st2 = st1) as Keep.
    { intros Hex. by eapply chain_stable; [exact C | apply R1]. }
    split.
    + apply Forall_app. split; [by eapply calls_through_later | done].
    + intros Hex. apply Exists_app in Hex as [Hex|Hex]; [|by apply R2].
      rewrite (Keep Hex). by apply R1.
Qed.

(** Without interference, nothing is freed, and the library is loaded at
    most once for each turn of the BCrypt source. *)
Lemma outcome_loads (a : arch) (src : source) (st st1 v : Z) (t : list event) :
  outcome a src st st1 v t ->
  count is_free t = 0%nat /\
  (count is_load t <= length (List.filter is_BCryptBinding [src]))%nat.
Proof.
  intros [st0 v0|st0 v0|st0 pfn t0 R Hp|st0 pfn v0 t1 t2 R Hp T|st0 v0 t0 T|st0 v0 t0 T].
  - split; [reflexivity | unfold count; simpl; lia].
  - split; [reflexivity | unfold count; simpl; lia].
  - destruct R; (split; [reflexivity | unfold count; simpl; lia]).
  - rewrite !count_app.
    destruct R, T; (split; [reflexivity | unfold count; simpl; lia]).
  - destruct T; (split; [reflexivity | unfold count; simpl; lia]).
  - destruct T; (split; [reflexivity | unfold count; simpl; lia]).
Qed.

Lemma chain_loads (a : arch) (srcs : list source) (st st1 v : Z) (t : list event) :
  chain a srcs st st1 v t ->
  count is_free t = 0%nat /\
  (count is_load t <= length (List.filter is_BCryptBinding srcs))%nat.
Proof.
  induction 1 as [st v|src rest st st1 v t O Hv|src rest st st1 st2 e v t1 t2 O He C IH].
  - split; [reflexivity | unfold count; simpl; lia].
  - destruct (outcome_loads _ _ _ _ _ _ O) as [F L]. split; [done|].
    change (src :: rest) with ([src] ++ rest).
    rewrite List.filter_app, length_app. lia.
  - destruct (outcome_loads _ _ _ _ _ _ O) as [F L]. destruct IH as [F2 L2].
    rewrite !count_app. split; [lia|].
    change (src :: rest) with ([src] ++ rest).
    rewrite List.filter_app, length_app. lia.
Qed.

(** A monitor that every attempt takes from [q] back to [q], and that the
    final probe leaves at [q], accepts every chain. *)
Lemma chain_scan {Q : Type} (delta : Q -> event -> option Q) (q : Q) (a : arch)
    (srcs : list source) (st st1 v : Z) (t : list event) :
  (forall src st st1 v t, outcome a src st st1 v t -> scan delta q t = Some q) ->
  (forall v, delta q (Ev_entropy_available v) = Some q) ->
  chain a srcs st st1 v t ->
  scan delta q t = Some q.
Proof.
  intros Hout Hprobe.
  induction 1 as [st v|src rest st st1 v t O Hv|src rest st st1 st2 e v t1 t2 O He C IH].
  - simpl. by rewrite Hprobe.
  - by eapply Hout.
  - rewrite scan_app, (Hout _ _ _ _ _ O). exact IH.
Qed.

Lemma outcome_sizing (a : arch) (src : source) (st st1 v : Z) (t : list event) :
  outcome a src st st1 v t -> scan sizing None t = Some None.
Proof.
  intros [st0 v0|st0 v0|st0 pfn t0 R Hp|st0 pfn v0 t1 t2 R Hp T|st0 v0 t0 T|st0 v0 t0 T].
  - done.
  - done.
  - by destruct R.
  - rewrite scan_app. assert (scan sizing None t1 = Some None) as -> by (by destruct R).
    destruct T; simpl; by rewrite Z.eqb_refl.
  - destruct T; simpl; by rewrite Z.eqb_refl.
  - destruct T; simpl; by rewrite Z.eqb_refl.
Qed.

Lemma outcome_probing (a : arch) (src : source) (st st1 v : Z) (t : list event) :
  outcome a src st st1 v t -> scan probing false t = Some false.
Proof.
  intros [st0 v0|st0 v0|st0 pfn t0 R Hp|st0 pfn v0 t1 t2 R Hp T|st0 v0 t0 T|st0 v0 t0 T].
  - done.
  - done.
  - by destruct R.
  - rewrite scan_app. assert (scan probing false t1 = Some false) as -> by (by destruct R).
    by destruct T.
  - by destruct T.
  - by destruct T.
Qed.

Lemma outcome_never_calls_NULL (a : arch) (src : source) (st st1 v : Z) (t : list event) :
  outcome a src st st1 v t ->
  Forall (fun e => match e with Ev_BCryptGenRandom pfn _ _ _ => pfn <> NULL | _ => True end) t.
Proof.
  intros [st0 v0|st0 v0|st0 pfn t0 R Hp|st0 pfn v0 t1 t2 R Hp T|st0 v0 t0 T|st0 v0 t0 T].
  - by repeat constructor.
  - by repeat constructor.
  - destruct R; by repeat constructor.
  - apply Forall_app. split; [destruct R; by repeat constructor|].
    apply Z.eqb_neq in Hp. destruct T; by repeat constructor.
  - destruct T; by repeat constructor.
  - destruct T; by repeat constructor.
Qed.

Lemma chain_never_calls_NULL (a : arch) (srcs : list source) (st st1 v : Z)
    (t : list event) :
  chain a srcs st st1 v t ->
  Forall (fun e => match e with Ev_BCryptGenRandom pfn _ _ _ => pfn <> NULL | _ => True end) t.
Proof.
  induction 1 as [st v|src rest st st1 v t O Hv|src rest st st1 st2 e v t1 t2 O He C IH].
  - by repeat constructor.
  - by eapply outcome_never_calls_NULL.
  - apply Forall_app. split; [by eapply outcome_never_calls_NULL | done].
Qed.

(** ** Further properties of [rand_pool_acquire_entropy] *)

Section Acquisition.
Context {RAND_POOL OS : Type} `{RandLocal RAND_POOL} `{Windows OS}.

(** X1.  Each source is invoked at most once in a call, in the order of
    priority, and only if the build contains it: the hardware source
    functions, the generator behind the binding and the CryptoAPI providers
    that a run calls, read off its trace, form a sublist of the sources the
    build contains, taken in the order timing jitter, CPU instruction,
    BCrypt, RSA_FULL provider, Intel provider. *)
Theorem sources_invoked_in_order (cfg : build) (s : state RAND_POOL OS) :
  omap invoked (rand_pool_acquire_entropy cfg s).2
  `sublist_of` List.filter (compiled_in cfg) priority_order.
Proof.
  pose proof (acquire_entropy_chain cfg s) as C.
  destruct (rand_pool_acquire_entropy cfg s) as [[v s1] t].
  by eapply chain_invoked.
Qed.

(** X2.  The value returned is never made up: it is the entropy that the
    last report in the trace carries, be it the result of a hardware source
    function or the answer of [rand_pool_entropy_available]. *)
Theorem result_is_last_report (cfg : build) (s : state RAND_POOL OS) :
  last_report (rand_pool_acquire_entropy cfg s).2
  = Some (rand_pool_acquire_entropy cfg s).1.1.
Proof.
  pose proof (acquire_entropy_chain cfg s) as C.
  destruct (rand_pool_acquire_entropy cfg s) as [[v s1] t].
  by eapply chain_report.
Qed.

(** X3.  A result that is not positive comes only after every source had
    its turn: the hardware source functions the build contains have been
    called, and both CryptoAPI sources have asked the pool for a buffer. *)
Theorem nonpositive_result_after_every_turn (cfg : build) (s : state RAND_POOL OS) :
  (0 <? (rand_pool_acquire_entropy cfg s).1.1) = false ->
  (OPENSSL_RAND_SEED_RDTSC cfg = true ->
   (1 <= count is_from_tsc (rand_pool_acquire_entropy cfg s).2)%nat) /\
  (OPENSSL_RAND_SEED_RDCPU cfg = true ->
   (1 <= count is_from_cpu (rand_pool_acquire_entropy cfg s).2)%nat) /\
  (2 <= count is_reservation (rand_pool_acquire_entropy cfg s).2)%nat.
Proof.
  pose proof (acquire_entropy_chain cfg s) as C.
  destruct (rand_pool_acquire_entropy cfg s) as [[v s1] t]. simpl. intros Hv.
  pose proof (chain_turns is_from_tsc _ _ _ _ _ _
                (fun _ => eq_refl) (fun _ => eq_refl) (fun _ _ => eq_refl) C Hv) as Htsc.
  pose proof (chain_turns is_from_cpu _ _ _ _ _ _
                (fun _ => eq_refl) (fun _ => eq_refl) (fun _ _ => eq_refl) C Hv) as Hcpu.
  pose proof (chain_turns is_reservation _ _ _ _ _ _
                (fun _ => eq_refl) (fun _ => eq_refl) (fun _ _ => eq_refl) C Hv) as Hres.
  destruct cfg as [a [] [] []]; unfold owed in *; simpl in *;
    repeat split; intros; try done; lia.
Qed.

(** X4.  The generator is never called through [NULL]; and as long as
    [GetProcAddress] answers plausibly, every call of the generator goes
    through the value that the static holds when the function returns,
    which is then resolved. *)
Theorem generator_called_through_the_binding (cfg : build) (s : state RAND_POOL OS) :
  Forall (fun e => match e with
                   | Ev_BCryptGenRandom pfn _ _ _ => pfn <> NULL
                   | _ => True
                   end)
         (rand_pool_acquire_entropy cfg s).2 /\
  (Forall (fun e => plausible_answer (target cfg) e = true)
          (rand_pool_acquire_entropy cfg s).2 ->
   Forall (fun e => match e with
                    | Ev_BCryptGenRandom pfn _ _ _ =>
                        pfn = s_pfnBCryptGenRandom (rand_pool_acquire_entropy cfg s).1.2 /\
                        pfn <> PFN_BCryptGenRandom_NOTSET (target cfg)
                    | _ => True
                    end)
          (rand_pool_acquire_entropy cfg s).2).
Proof.
  pose proof (acquire_entropy_chain cfg s) as C.
  destruct (rand_pool_acquire_entropy cfg s) as [[v s1] t]. simpl.
  split; [by eapply chain_never_calls_NULL|]. intros Hpl.
  destruct (chain_calls _ _ _ _ _ _ C Hpl) as [F R].
  rewrite Forall_forall in *. intros e Hin. specialize (F e Hin).
  destruct e; try done. simpl in F. destruct F as [NN ->]. split; [done|].
  apply R, Exists_exists. eexists. split; [exact Hin | done].
Qed.

(** X5.  A call that no other thread interferes with never calls
    [FreeLibrary], and calls [LoadLibraryExA] at most once. *)
Theorem no_unload_without_interference (cfg : build) (s : state RAND_POOL OS) :
  count is_free (rand_pool_acquire_entropy cfg s).2 = 0%nat /\
  (count is_load (rand_pool_acquire_entropy cfg s).2 <= 1)%nat.
Proof.
  pose proof (acquire_entropy_chain cfg s) as C.
  destruct (rand_pool_acquire_entropy cfg s) as [[v s1] t]. simpl.
  destruct (chain_loads _ _ _ _ _ _ C) as [F L]. split; [done|].
  destruct cfg as [a [] [] []]; simpl in *; lia.
Qed.

(** X6.  Every reservation is sized by the pool: each
    [rand_pool_add_begin] asks for exactly the number of bytes that
    [rand_pool_bytes_needed] has just returned, and that is always called
    with the entropy factor 1. *)
Theorem reserves_what_is_needed (cfg : build) (s : state RAND_POOL OS) :
  scan sizing None (rand_pool_acquire_entropy cfg s).2 = Some None.
Proof.
  pose proof (acquire_entropy_chain cfg s) as C.
  destruct (rand_pool_acquire_entropy cfg s) as [[v s1] t]. simpl.
  eapply chain_scan; [|done|exact C]. intros. by eapply outcome_sizing.
Qed.

(** X7.  Every commit is followed at once by the probe of the pool: after
    [rand_pool_add_end] the next call that leaves the function is
    [rand_pool_entropy_available], so the entropy tested is read after the
    commit and before anything else happens. *)
Theorem probes_after_every_commit (cfg : build) (s : state RAND_POOL OS) :
  scan probing false (rand_pool_acquire_entropy cfg s).2 = Some false.
Proof.
  pose proof (acquire_entropy_chain cfg s) as C.
  destruct (rand_pool_acquire_entropy cfg s) as [[v s1] t]. simpl.
  eapply chain_scan; [|done|exact C]. intros. by eapply outcome_probing.
Qed.
End Acquisition.

(** ** The records of the nonce generators, read back *)

Lemma byte_of_Z_value (z : Z) : Z.of_N (Byte.to_N (byte_of_Z z)) = z mod 256.
Proof.
  unfold byte_of_Z. pose proof (Z.mod_pos_bound z 256 eq_refl) as Hb.
  destruct (Byte.of_N (Z.to_N (z mod 256))) as [b|] eqn:E.
  - apply Byte.to_of_N in E. rewrite E. lia.
  - apply Byte.of_N_None_iff in E. lia.
Qed.

Lemma le_value_le_bytes (n : nat) (v : Z) :
  le_value (le_bytes n v) = v mod 2 ^ (8 * Z.of_nat n).
Proof.
  revert v. induction n as [|n IH]; intros v.
  - simpl. by rewrite Z.mod_1_r.
  - cbn [le_bytes le_value]. rewrite byte_of_Z_value, IH, Z.shiftr_div_pow2 by lia.
    replace (8 * Z.of_nat (S n)) with (8 + 8 * Z.of_nat n) by lia.
    rewrite Z.pow_add_r by lia. change (2 ^ 8) with 256.
    rewrite Z.rem_mul_r by lia. done.
Qed.

Section Records.
Context {RAND_POOL OS : Type} `{RandLocal RAND_POOL} `{Windows OS}.

(** X8.  The record that [rand_pool_add_nonce_data] hands to the pool is
    16 bytes long and carries the process id, the thread id and the two
    halves of the system time, each as a 32-bit little-endian number: they
    can be read back from it, whatever the stack held. *)
Theorem nonce_record_reads_back (stack : list byte) (s : state RAND_POOL OS) :
  match GetCurrentProcessId (os s) with
  | (pid, o1) =>
      match GetCurrentThreadId o1 with
      | (tid, o2) =>
          match GetSystemTimeAsFileTime o2 with
          | (time, _) =>
              exists data,
                added_bytes (rand_pool_add_nonce_data stack s).2 = [data] /\
                length data = 16%nat /\
                le_value (take 4 data) = pid mod 2 ^ 32 /\
                le_value (take 4 (drop 4 data)) = tid mod 2 ^ 32 /\
                le_value (take 4 (drop 8 data)) = time.1 mod 2 ^ 32 /\
                le_value (drop 12 data) = time.2 mod 2 ^ 32
          end
      end
  end.
Proof.
  rewrite rand_pool_add_nonce_data_unfold.
  destruct (GetCurrentProcessId _) as [pid o1], (GetCurrentThreadId _) as [tid o2],
    (GetSystemTimeAsFileTime _) as [time o3]. cbv beta iota zeta.
  exists (le_bytes 4 pid ++ le_bytes 4 tid ++ le_bytes 4 time.1 ++ le_bytes 4 time.2).
  split; [by destruct (rand_pool_add _ _ _ _)|].
  split; [reflexivity|].
  split; [exact (le_value_le_bytes 4 pid)|].
  split; [exact (le_value_le_bytes 4 tid)|].
  split; [exact (le_value_le_bytes 4 time.1) | exact (le_value_le_bytes 4 time.2)].
Qed.

(** X9.  The record that [rand_pool_add_additional_data] hands to the pool
    is 16 bytes long and carries the thread id as a 32-bit and the
    performance counter as a 64-bit little-endian number, with zero in the
    four bytes between them: two calls whose counters differ modulo 2^64
    hand over different records. *)
Theorem additional_record_reads_back (stack : list byte) (s : state RAND_POOL OS) :
  match GetCurrentThreadId (os s) with
  | (tid, o1) =>
      match QueryPerformanceCounter o1 with
      | (counter, _) =>
          exists data,
            added_bytes (rand_pool_add_additional_data stack s).2 = [data] /\
            length data = 16%nat /\
            le_value (take 4 data) = tid mod 2 ^ 32 /\
            le_value (take 4 (drop 4 data)) = 0 /\
            le_value (drop 8 data) = counter.2 mod 2 ^ 64
      end
  end.
Proof.
  rewrite rand_pool_add_additional_data_unfold.
  destruct (GetCurrentThreadId _) as [tid o1], (QueryPerformanceCounter _) as [c o2].
  cbv beta iota zeta.
  exists (le_bytes 4 tid ++ [x00; x00; x00; x00] ++ le_bytes 8 c.2).
  split; [by destruct (rand_pool_add _ _ _ _)|].
  split; [reflexivity|].
  split; [exact (le_value_le_bytes 4 tid)|].
  split; [reflexivity | exact (le_value_le_bytes 8 c.2)].
Qed.
End Records.

(** ** More on the race *)

Section RaceMoreProofs.
Import Race RaceMore.

Lemma step_length (a : arch) (w : world) (i : nat) (answer : Z) :
  length (threads (step a w i answer)) = length (threads w).
Proof.
  unfold step. destruct (threads w !! i) as [[]|]; simpl; by rewrite ?length_insert.
Qed.

Lemma run_length (a : arch) (schedule : list (nat * Z)) (w : world) :
  length (threads (run a schedule w)) = length (threads w).
Proof.
  revert w. induction schedule as [|[i answer] schedule IH]; intros w; [done|].
  simpl. by rewrite IH, step_length.
Qed.

(** A step of thread [i] brings thread [i] closer to line 96 and leaves
    the other threads where they are. *)
Lemma step_progress (a : arch) (w : world) (i : nat) (answer : Z) (j : nat) (p : pc) :
  threads w !! j = Some p ->
  exists p', threads (step a w i answer) !! j = Some p' /\
             (if Nat.eqb i j then (steps_left p' <= pred (steps_left p))%nat else p' = p).
Proof.
  intros Hj. pose proof (lookup_lt_Some _ _ _ Hj) as Hlt.
  destruct (Nat.eqb_spec i j) as [->|NE].
  - unfold step. rewrite Hj.
    destruct p as [| |hm|hm pfn|hm pfn2|pfn]; simpl;
      rewrite ?list_lookup_insert_eq by done.
    + destruct (_ =? _); eexists; (split; [reflexivity | simpl; lia]).
    + eexists; (split; [reflexivity | simpl; lia]).
    + eexists; (split; [reflexivity | simpl; lia]).
    + destruct (negb _); eexists; (split; [reflexivity | simpl; lia]).
    + eexists; (split; [reflexivity | simpl; lia]).
    + eexists; (split; [exact Hj | simpl; lia]).
  - exists p. split; [|done]. unfold step.
    destruct (threads w !! i) as [[]|]; simpl; rewrite ?list_lookup_insert_ne by done; done.
Qed.

Lemma run_progress (a : arch) (schedule : list (nat * Z)) (w : world) (j : nat) (p : pc) :
  threads w !! j = Some p ->
  exists p', threads (run a schedule w) !! j = Some p' /\
             (steps_left p' <= steps_left p - moves_of j schedule)%nat.
Proof.
  revert w p. induction schedule as [|[i answer] schedule IH]; intros w p Hj.
  - exists p. split; [done|]. unfold moves_of. simpl. lia.
  - destruct (step_progress a w i answer j p Hj) as (p1 & H1 & Hstep).
    destruct (IH _ _ H1) as (p2 & H2 & Hrun).
    exists p2. split; [exact H2|]. unfold moves_of in *. simpl.
    destruct (Nat.eqb i j); simpl; [lia | subst; lia].
Qed.

(** X10.  The binding is wait-free: whatever the other threads do and
    whatever Windows answers, a thread is past line 95 after at most five
    steps of its own; a schedule that gives each of [n] threads five moves
    leaves all of them at line 96. *)
Theorem binding_is_wait_free (a : arch) (n : nat) (schedule : list (nat * Z)) :
  (forall i, (i < n)%nat -> (5 <= moves_of i schedule)%nat) ->
  Forall (fun p => finished p = true) (threads (run a schedule (init a n))).
Proof.
  intros Hfair. apply Forall_lookup. intros j p' Hj.
  pose proof (lookup_lt_Some _ _ _ Hj) as Hlt.
  rewrite run_length in Hlt. simpl in Hlt. rewrite length_replicate in Hlt.
  assert (threads (init a n) !! j = Some At79) as H0.
  { simpl. by apply lookup_replicate_2. }
  destruct (run_progress a schedule _ _ _ H0) as (p2 & H2 & Hleft).
  rewrite Hj in H2. injection H2 as <-.
  specialize (Hfair j Hlt). simpl in Hleft.
  destruct p'; simpl in *; try lia; done.
Qed.

Lemma binding_is_wait_free_witness :
  Forall (fun p => finished p = true)
    (threads
       (run Win64
          [(0%nat, 0); (1%nat, 0); (0%nat, 0x7ff80000); (1%nat, 0); (0%nat, 0x7ff81230);
           (1%nat, 0); (0%nat, 0); (1%nat, 0); (1%nat, 0); (0%nat, 0)]
          (init Win64 2))).
Proof.
  apply (binding_is_wait_free Win64 2
           [(0%nat, 0); (1%nat, 0); (0%nat, 0x7ff80000); (1%nat, 0); (0%nat, 0x7ff81230);
            (1%nat, 0); (0%nat, 0); (1%nat, 0); (1%nat, 0); (0%nat, 0)]).
  intros [|[|i]] Hi; [vm_compute; lia | vm_compute; lia | lia].
Defined.

Lemma step_library_held (a : arch) (w : world) (i : nat) (answer : Z) :
  answer <> PFN_BCryptGenRandom_NOTSET a ->
  library_held a w -> library_held a (step a w i answer).
Proof.
  intros Hans (kept & Hloads & Hunset & Hset & Hok).
  unfold step. destruct (threads w !! i) as [p|] eqn:Hi; [|by exists kept].
  pose proof (sum_list_with_insert in_hand (threads w) i p) as Shand.
  pose proof (Forall_lookup_1 _ _ _ _ Hok Hi) as Hp.
  assert (forall q, publishes_well a q ->
                    Forall (publishes_well a) (<[i := q]> (threads w))) as Hins.
  { intros q Hq. by apply Forall_insert. }
  destruct p as [| |hm|hm pfn|hm pfn2|pfn]; simpl in *.
  - assert ((if static w =? 0 then 0 else static w) = static w) as ->.
    { destruct (Z.eqb_spec (static w) 0); congruence. }
    destruct (static w =? PFN_BCryptGenRandom_NOTSET a).
    + specialize (Shand At84 Hi). exists kept. simpl in *.
      split; [lia|]. repeat split; try done. by apply Hins.
    + specialize (Shand (At96 (static w)) Hi). exists kept. simpl in *.
      split; [lia|]. repeat split; try done. by apply Hins.
  - specialize (Shand (At85 answer) Hi). exists kept. simpl in *.
    destruct (answer =? NULL); simpl in *;
      (split; [lia|]); repeat split; try done; by apply Hins.
  - specialize (Shand (At90 hm (if negb (hm =? NULL) then answer else NULL)) Hi).
    exists kept. simpl in *. split; [lia|]. repeat split; try done.
    apply Hins. simpl. destruct (hm =? NULL); simpl; [|done].
    split; [apply NOTSET_is_not_NULL | done].
  - destruct Hp as [Hpfn Hnull].
    destruct (Z.eqb_spec (static w) (PFN_BCryptGenRandom_NOTSET a)) as [E|NE]; simpl.
    + specialize (Shand (At96 pfn) Hi). simpl in *. specialize (Hunset E). subst kept.
      exists (if (hm =? NULL)%Z then 0%nat else 1%nat). simpl.
      split; [destruct (hm =? NULL); lia|].
      split; [done|]. split; [|by apply Hins].
      intros _ Hnn. destruct (hm =? NULL); [|done]. by specialize (Hnull eq_refl).
    + specialize (Shand (At92 hm (static w)) Hi). exists kept. simpl in *.
      split; [lia|]. repeat split; try done. by apply Hins.
  - specialize (Shand (At96 pfn2) Hi). exists kept. simpl in *.
    destruct (hm =? NULL); simpl in *;
      (split; [lia|]); repeat split; try done; by apply Hins.
  - by exists kept.
Qed.

Lemma init_library_held (a : arch) (n : nat) : library_held a (init a n).
Proof.
  exists 0%nat. simpl.
  assert (sum_list_with in_hand (replicate n At79) = 0%nat) as ->.
  { induction n; simpl; lia. }
  repeat split; try done. by apply Forall_replicate.
Qed.

Lemma run_library_held (a : arch) (schedule : list (nat * Z)) (w : world) :
  plausible a schedule ->
  library_held a w -> library_held a (run a schedule w).
Proof.
  revert w. induction schedule as [|[i answer] schedule IH]; intros w Hpl Hw; [done|].
  apply Forall_cons in Hpl as [Hans Hpl]. simpl.
  apply IH; [done|]. by apply step_library_held.
Qed.

(** X11.  A bound function stays loaded: at every moment of every
    interleaving, with plausible answers of Windows, if the static holds the
    address of a function (neither the sentinel nor [NULL]), then the
    process has loaded the library more often than it has freed it, so the
    address is never that of an unloaded library. *)
Theorem bound_function_stays_loaded (a : arch) (n : nat) (schedule : list (nat * Z)) :
  plausible a schedule ->
  static (run a schedule (init a n)) <> PFN_BCryptGenRandom_NOTSET a ->
  static (run a schedule (init a n)) <> NULL ->
  (frees (run a schedule (init a n)) < loads (run a schedule (init a n)))%nat.
Proof.
  intros Hpl NE NN.
  destruct (run_library_held a schedule (init a n) Hpl (init_library_held a n))
    as (kept & Hloads & _ & Hset & _).
  specialize (Hset NE NN). lia.
Qed.

Lemma bound_function_stays_loaded_witness :
  Nat.lt
    (frees
       (run Win64
          [(0%nat, 0); (1%nat, 0); (0%nat, 0x7ff80000); (1%nat, 0x7ff80000);
           (0%nat, 0x7ff81230); (1%nat, 0x7ff81230); (0%nat, 0); (1%nat, 0); (1%nat, 0)]
          (init Win64 2)))
    (loads
       (run Win64
          [(0%nat, 0); (1%nat, 0); (0%nat, 0x7ff80000); (1%nat, 0x7ff80000);
           (0%nat, 0x7ff81230); (1%nat, 0x7ff81230); (0%nat, 0); (1%nat, 0); (1%nat, 0)]
          (init Win64 2))).
Proof.
  apply (bound_function_stays_loaded Win64 2
           [(0%nat, 0); (1%nat, 0); (0%nat, 0x7ff80000); (1%nat, 0x7ff80000);
            (0%nat, 0x7ff81230); (1%nat, 0x7ff81230); (0%nat, 0); (1%nat, 0);
            (1%nat, 0)]).
  - repeat constructor; intros E; vm_compute in E; discriminate E.
  - intros E; vm_compute in E; discriminate E.
  - intros E; vm_compute in E; discriminate E.
Defined.

Lemma run_static_stable (a : arch) (schedule : list (nat * Z)) (w : world) :
  static w <> PFN_BCryptGenRandom_NOTSET a ->
  static (run a schedule w) = static w.
Proof.
  revert w. induction schedule as [|[i answer] schedule IH]; intros w NE; [done|].
  simpl. pose proof (static_stable a w i answer NE) as E.
  rewrite IH; [done | by rewrite E].
Qed.

Lemma run_finished_stays (a : arch) (schedule : list (nat * Z)) (w : world)
    (i : nat) (v : Z) :
  threads w !! i = Some (At96 v) ->
  threads (run a schedule w) !! i = Some (At96 v).
Proof.
  intros Hi. destruct (run_progress a schedule w i _ Hi) as (p' & Hp' & Hleft).
  rewrite Hp'. f_equal.
  revert w Hi p' Hp' Hleft.
  induction schedule as [|[j answer] schedule IH]; intros w Hi p' Hp' Hleft.
  - simpl in Hp'. congruence.
  - simpl in Hp'. destruct (step_progress a w j answer i _ Hi) as (p1 & H1 & Hstep).
    assert (p1 = At96 v) as ->.
    { destruct (Nat.eqb_spec j i) as [->|NE]; [|done].
      unfold step in H1. rewrite Hi in H1. congruence. }
    destruct (run_progress a schedule _ i _ H1) as (p2 & H2 & Hleft2).
    eapply IH; [exact H1 | exact Hp' | ].
    rewrite Hp' in H2. injection H2 as <-. exact Hleft2.
Qed.

(** X12.  What a thread takes away is final: once a thread has reached
    line 96 with the value [v], under plausible answers of Windows, [v] is a
    resolved value, it is what the static holds, and whatever the threads
    do afterwards the static still holds [v] and the thread still has it. *)
Theorem taken_value_is_final (a : arch) (n : nat) (schedule later : list (nat * Z))
    (i : nat) (v : Z) :
  plausible a schedule ->
  threads (run a schedule (init a n)) !! i = Some (At96 v) ->
  v <> PFN_BCryptGenRandom_NOTSET a /\
  static (run a schedule (init a n)) = v /\
  static (run a later (run a schedule (init a n))) = v /\
  threads (run a later (run a schedule (init a n))) !! i = Some (At96 v).
Proof.
  intros Hpl Hi.
  destruct (run_invariant a n schedule (init a n) Hpl (init_invariant a n))
    as (_ & kept & _ & _ & _ & _ & Hok).
  pose proof (Forall_lookup_1 _ _ _ _ Hok Hi) as [-> NE].
  split; [done|]. split; [done|].
  split; [by apply run_static_stable | by apply run_finished_stays].
Qed.

Lemma taken_value_is_final_witness :
  0x7ff81230 <> PFN_BCryptGenRandom_NOTSET Win64 /\
  static (run Win64 [(0%nat, 0); (0%nat, 0x7ff80000); (0%nat, 0x7ff81230); (0%nat, 0)]
            (init Win64 2)) = 0x7ff81230 /\
  static (run Win64 [(1%nat, 0); (1%nat, 0)]
            (run Win64 [(0%nat, 0); (0%nat, 0x7ff80000); (0%nat, 0x7ff81230); (0%nat, 0)]
               (init Win64 2))) = 0x7ff81230 /\
  threads (run Win64 [(1%nat, 0); (1%nat, 0)]
             (run Win64 [(0%nat, 0); (0%nat, 0x7ff80000); (0%nat, 0x7ff81230); (0%nat, 0)]
                (init Win64 2))) !! 0%nat = Some (At96 0x7ff81230).
Proof.
  apply (taken_value_is_final Win64 2
           [(0%nat, 0); (0%nat, 0x7ff80000); (0%nat, 0x7ff81230); (0%nat, 0)]
           [(1%nat, 0); (1%nat, 0)] 0%nat 0x7ff81230).
  - repeat constructor; intros E; vm_compute in E; discriminate E.
  - reflexivity.
Defined.
End RaceMoreProofs.

(** ** The further properties on the scripted machine *)

Section MoreRuns.
#[local] Existing Instance EntropyPool.example_rand_local.
#[local] Existing Instance Script.windows.
Import Script.

(** On the machine where every source fails the result is 0, and both
    CryptoAPI sources have asked for a buffer. *)
Lemma nonpositive_result_after_every_turn_witness :
  (OPENSSL_RAND_SEED_RDTSC vista64 = true ->
   le 1 (count is_from_tsc (rand_pool_acquire_entropy vista64 (first_call barren)).2)) /\
  (OPENSSL_RAND_SEED_RDCPU vista64 = true ->
   le 1 (count is_from_cpu (rand_pool_acquire_entropy vista64 (first_call barren)).2)) /\
  le 2 (count is_reservation (rand_pool_acquire_entropy vista64 (first_call barren)).2).
Proof.
  apply (nonpositive_result_after_every_turn vista64 (first_call barren)).
  vm_compute. reflexivity.
Defined.

(** On the machine with [BCRYPT.dll] the one call of the generator goes
    through the address that [GetProcAddress] returned and the static
    keeps. *)
Lemma generator_called_through_the_binding_witness :
  Forall (fun e => match e with
                   | Ev_BCryptGenRandom pfn _ _ _ =>
                       pfn = s_pfnBCryptGenRandom
                               (rand_pool_acquire_entropy vista64 (first_call modern)).1.2 /\
                       pfn <> PFN_BCryptGenRandom_NOTSET (target vista64)
                   | _ => True
                   end)
         (rand_pool_acquire_entropy vista64 (first_call modern)).2.
Proof.
  apply (generator_called_through_the_binding vista64 (first_call modern)).
  vm_compute. repeat constructor.
Defined.

Example sources_in_order_on_the_legacy_machine :
  omap invoked (rand_pool_acquire_entropy vista64 (first_call legacy)).2
  = [CryptoApiRsaFull].
Proof. vm_compute. done. Qed.

Example sources_in_order_on_the_barren_machine :
  omap invoked (rand_pool_acquire_entropy vista64 (first_call barren)).2
  = [CryptoApiRsaFull; CryptoApiIntel].
Proof. vm_compute. done. Qed.

(** The monitors of sizing and probing do reject. *)
Example wrong_size_rejected :
  scan sizing None [Ev_bytes_needed 1 32; Ev_add_begin 64 1] = None.
Proof. reflexivity. Qed.

Example missing_probe_rejected :
  scan probing false [Ev_add_end 32 256; Ev_bytes_needed 1 0] = None.
Proof. reflexivity. Qed.
End MoreRuns.
